(** * Mempool RBF tracker: the store, the replacement detector and the threads

    A shallow embedding of [main_Batch_WAL_new.py].  The SQLite tables are
    lists of rows in rowid order (two of them carry no uniqueness constraint,
    so duplicates and order are part of the state), Python dictionaries are
    association lists in insertion order, a nullable column or an absent JSON
    key is an [option], and a Python exception is an explicit [Raised]
    outcome that leaves the statements already executed on the connection in
    place.

    Outside the model: the log lines; JSON keys that are present with a
    value of another type ([null], a string where a number belongs); JSON
    integers beyond the 64 bits of an SQLite INTEGER (the difference the
    detector computes from two stored values is modelled, with its
    OverflowError).  The statistics counters and a response body that is
    not a JSON object appear in [Http.fetch_tx] only: the threads see
    [fetch_tx] through the environment, as a transaction or [None].  A
    SELECT without ORDER BY returns its rows in table order.  The sleeps of
    the threads change no state and are left out: a thread is described by
    what it does with the inputs it gets, in order. *)

From Stdlib Require Import ZArith List String Bool Lia.
Import ListNotations.

Local Open Scope Z_scope.
Local Open Scope string_scope.
Local Open Scope list_scope.

(** ** Configuration *)

Definition POLL_INTERVAL : Z := 5.
Definition HISTORY_DAYS : Z := 7.
Definition RBF_SEQ_THRESHOLD : Z := 0xFFFFFFFE.

(** ** Rows of the six tables created by [init_db], one record per table *)

Module Table.

(** [tx (txid TEXT PRIMARY KEY, fetched_at TEXT, fee INTEGER, vsize INTEGER)] *)
Record tx := {
  tx_txid : string;
  fetched_at : string;
  fee : Z;
  vsize : Z }.

(** [tx_inputs (txid, prev_txid, prev_vout, address, value, sequence)],
    no key. *)
Record tx_input := {
  in_txid : string;
  prev_txid : string;
  prev_vout : Z;
  in_address : option string;
  in_value : option Z;
  sequence : Z }.

(** [tx_outputs (txid, vout_index, address, value)], no key. *)
Record tx_output := {
  out_txid : string;
  vout_index : Z;
  out_address : option string;
  out_value : option Z }.

(** [rbf_txs (txid TEXT PRIMARY KEY, added_at TEXT)] *)
Record rbf_tx := {
  rbf_txid : string;
  added_at : string }.

(** [replacements], PRIMARY KEY(orig_txid, new_txid, change_address,
    change_vout_index). *)
Record replacement := {
  orig_txid : string;
  new_txid : string;
  change_address : option string;
  change_vout_index : Z;
  old_value : Z;
  new_value : Z;
  diff : Z;
  detected_at : string }.

(** [change_inputs], PRIMARY KEY(orig_txid, new_txid, change_address,
    input_address, change_vout_index). *)
Record change_input := {
  ci_orig_txid : string;
  ci_new_txid : string;
  ci_change_address : option string;
  ci_change_vout_index : Z;
  input_address : option string;
  ci_detected_at : string }.

End Table.

Record store := {
  tx : list Table.tx;
  tx_inputs : list Table.tx_input;
  tx_outputs : list Table.tx_output;
  rbf_txs : list Table.rbf_tx;
  replacements : list Table.replacement;
  change_inputs : list Table.change_input }.

(** The tables right after [init_db] on a new database. *)
Definition empty_store : store :=
  {| tx := []; tx_inputs := []; tx_outputs := []; rbf_txs := [];
     replacements := []; change_inputs := [] |}.

(** ** Values as Python and SQLite compare them *)

(** Python [==] on a value that is a string or [None]. *)
Definition py_eq_text (a b : option string) : bool :=
  match a, b with
  | Some x, Some y => String.eqb x y
  | None, None => true
  | _, _ => false
  end.

(** Python [==] on a value that is an integer or [None]. *)
Definition py_eq_int (a b : option Z) : bool :=
  match a, b with
  | Some x, Some y => Z.eqb x y
  | None, None => true
  | _, _ => false
  end.

(** SQL [=] as a uniqueness constraint applies it to a nullable TEXT column:
    SQLite admits NULL in the columns of a PRIMARY KEY of an ordinary rowid
    table, and for a uniqueness constraint a NULL is distinct from every
    value, another NULL included. *)
Definition sql_key_eq_text (a b : option string) : bool :=
  match a, b with
  | Some x, Some y => String.eqb x y
  | _, _ => false
  end.

(** ** INSERT OR IGNORE on the keyed tables *)

Definition tx_conflict (r r' : Table.tx) : bool :=
  String.eqb (Table.tx_txid r) (Table.tx_txid r').

Definition rbf_conflict (r r' : Table.rbf_tx) : bool :=
  String.eqb (Table.rbf_txid r) (Table.rbf_txid r').

Definition replacement_conflict (r r' : Table.replacement) : bool :=
  String.eqb (Table.orig_txid r) (Table.orig_txid r')
  && String.eqb (Table.new_txid r) (Table.new_txid r')
  && sql_key_eq_text (Table.change_address r) (Table.change_address r')
  && Z.eqb (Table.change_vout_index r) (Table.change_vout_index r').

Definition change_input_conflict (r r' : Table.change_input) : bool :=
  String.eqb (Table.ci_orig_txid r) (Table.ci_orig_txid r')
  && String.eqb (Table.ci_new_txid r) (Table.ci_new_txid r')
  && sql_key_eq_text (Table.ci_change_address r) (Table.ci_change_address r')
  && sql_key_eq_text (Table.input_address r) (Table.input_address r')
  && Z.eqb (Table.ci_change_vout_index r) (Table.ci_change_vout_index r').

(** The row is appended unless a stored row conflicts with it on the key, in
    which case the statement does nothing and raises nothing. *)
Definition insert_or_ignore {R : Type} (conflict : R -> R -> bool)
    (r : R) (table : list R) : list R :=
  if existsb (conflict r) table then table else table ++ [r].

(** ** Python dictionaries keyed by output index *)

Definition output_info : Type := option string * option Z.
Definition py_dict : Type := list (Z * output_info).

(** [d[k] = v]: an existing key keeps its position, a new one goes last. *)
Fixpoint dict_set (k : Z) (v : output_info) (d : py_dict) : py_dict :=
  match d with
  | [] => [(k, v)]
  | (k', v') :: d' =>
      if Z.eqb k k' then (k', v) :: d' else (k', v') :: dict_set k v d'
  end.

Fixpoint dict_get (k : Z) (d : py_dict) : option output_info :=
  match d with
  | [] => None
  | (k', v') :: d' => if Z.eqb k k' then Some v' else dict_get k d'
  end.

Definition dict_keys (d : py_dict) : list Z := map fst d.

(** [{idx: (addr, val) for (idx, addr, val) in rows}] *)
Definition by_idx (rows : list Table.tx_output) : py_dict :=
  fold_left
    (fun d r =>
       dict_set (Table.vout_index r) (Table.out_address r, Table.out_value r) d)
    rows [].

(** [set(d1.keys()) == set(d2.keys())] *)
Definition same_key_set (d1 d2 : py_dict) : bool :=
  forallb (fun k => existsb (Z.eqb k) (dict_keys d2)) (dict_keys d1)
  && forallb (fun k => existsb (Z.eqb k) (dict_keys d1)) (dict_keys d2).

(** [SELECT vout_index, address, value FROM tx_outputs WHERE txid=?] *)
Definition select_outputs (txid : string) (s : store) : list Table.tx_output :=
  filter (fun r => String.eqb (Table.out_txid r) txid) (tx_outputs s).

(** [SELECT DISTINCT ...]: first occurrences, NULL equal to NULL. *)
Fixpoint distinct (l : list (option string)) : list (option string) :=
  match l with
  | [] => []
  | a :: l' => a :: filter (fun b => negb (py_eq_text a b)) (distinct l')
  end.

(** [SELECT DISTINCT address FROM tx_inputs WHERE txid=?] *)
Definition select_input_addresses (txid : string) (s : store)
    : list (option string) :=
  distinct (map Table.in_address
              (filter (fun r => String.eqb (Table.in_txid r) txid) (tx_inputs s))).

(** ** Exceptions and the clock *)

Inductive exn : Type :=
| KeyError (key : string)
| TypeError
| OverflowError
| JSONDecodeError
| RequestException.

Inductive outcome : Type :=
| Done
| Raised (e : exn).

(** What runs on the connection: the rows its statements see, and how many
    times the process has read the clock so far. *)
Record world := {
  db : store;
  ticks : nat }.

Definition with_tx (t : list Table.tx) (s : store) : store :=
  {| tx := t; tx_inputs := tx_inputs s; tx_outputs := tx_outputs s;
     rbf_txs := rbf_txs s; replacements := replacements s;
     change_inputs := change_inputs s |}.

Definition with_tx_inputs (t : list Table.tx_input) (s : store) : store :=
  {| tx := tx s; tx_inputs := t; tx_outputs := tx_outputs s;
     rbf_txs := rbf_txs s; replacements := replacements s;
     change_inputs := change_inputs s |}.

Definition with_tx_outputs (t : list Table.tx_output) (s : store) : store :=
  {| tx := tx s; tx_inputs := tx_inputs s; tx_outputs := t;
     rbf_txs := rbf_txs s; replacements := replacements s;
     change_inputs := change_inputs s |}.

Definition with_rbf_txs (t : list Table.rbf_tx) (s : store) : store :=
  {| tx := tx s; tx_inputs := tx_inputs s; tx_outputs := tx_outputs s;
     rbf_txs := t; replacements := replacements s;
     change_inputs := change_inputs s |}.

Definition with_replacements (t : list Table.replacement) (s : store) : store :=
  {| tx := tx s; tx_inputs := tx_inputs s; tx_outputs := tx_outputs s;
     rbf_txs := rbf_txs s; replacements := t;
     change_inputs := change_inputs s |}.

Definition with_change_inputs (t : list Table.change_input) (s : store) : store :=
  {| tx := tx s; tx_inputs := tx_inputs s; tx_outputs := tx_outputs s;
     rbf_txs := rbf_txs s; replacements := replacements s;
     change_inputs := t |}.

(** ** The replacement detector *)

(** One entry of [diffs]: [(idx, orig_addr, orig_val, new_val)]. *)
Definition diff_entry : Type := Z * option string * option Z * option Z.

Inductive scan : Type :=
| ScanDone (diffs : list diff_entry)
| ScanReturn
| ScanKeyError.

(** The loop [for idx in orig_by_idx.keys()] of [record_replacement]:
    [ScanReturn] is its early [return] on an address mismatch, and
    [ScanKeyError] the failing subscript [new_by_idx[idx]]. *)
Fixpoint collect_diffs (items : py_dict) (new_by_idx : py_dict)
    (diffs : list diff_entry) : scan :=
  match items with
  | [] => ScanDone diffs
  | (idx, (orig_addr, orig_val)) :: rest =>
      match dict_get idx new_by_idx with
      | None => ScanKeyError
      | Some (new_addr, new_val) =>
          if negb (py_eq_text orig_addr new_addr) then ScanReturn
          else if negb (py_eq_int orig_val new_val)
               then collect_diffs rest new_by_idx
                      (diffs ++ [(idx, orig_addr, orig_val, new_val)])
               else collect_diffs rest new_by_idx diffs
      end
  end.

(** ** The transaction JSON of [GET /tx/{txid}]

    Only the keys the tracker reads; a field is [None] when the key is absent
    from the object. *)

Module Json.

Module Prevout.
Record t := {
  scriptpubkey_address : option string;
  value : option Z }.
End Prevout.

Module Vin.
Record t := {
  txid : option string;
  vout : option Z;
  sequence : option Z;
  prevout : option Prevout.t }.
End Vin.

Module Vout.
Record t := {
  scriptpubkey_address : option string;
  value : option Z }.
End Vout.

Module Tx.
Record t := {
  fee : option Z;
  vsize : option Z;
  vin : option (list Vin.t);
  vout : option (list Vout.t) }.
End Tx.

End Json.

(** [d.get(key, default)] on an optional field. *)
Definition get_or {A : Type} (field : option A) (default : A) : A :=
  match field with
  | Some a => a
  | None => default
  end.

(** ** The environment of the process

    The wall clock, read once per [datetime.utcnow()] (the n-th read returns
    [utcnow n], in microseconds), [datetime.isoformat], and what [fetch_tx]
    returns for a txid: the transaction JSON, or [None] on a 404, on any other
    HTTP error and on a network error alike. *)
Record env := {
  utcnow : nat -> Z;
  isoformat : Z -> string;
  fetch_tx : string -> option Json.Tx.t }.

Definition now_iso (E : env) (w : world) : string :=
  isoformat E (utcnow E (ticks w)).

Definition tick (w : world) (s : store) : world :=
  {| db := s; ticks := S (ticks w) |}.

Definition change_input_row (orig_txid new_txid : string)
    (change_addr : option string) (change_idx : Z) (ts : string)
    (inp : option string) : Table.change_input :=
  {| Table.ci_orig_txid := orig_txid; Table.ci_new_txid := new_txid;
     Table.ci_change_address := change_addr;
     Table.ci_change_vout_index := change_idx;
     Table.input_address := inp; Table.ci_detected_at := ts |}.

Definition replacement_row (orig_txid new_txid : string)
    (change_addr : option string) (change_idx old_val new_val : Z)
    (ts : string) : Table.replacement :=
  {| Table.orig_txid := orig_txid; Table.new_txid := new_txid;
     Table.change_address := change_addr;
     Table.change_vout_index := change_idx;
     Table.old_value := old_val; Table.new_value := new_val;
     Table.diff := old_val - new_val; Table.detected_at := ts |}.

(** The loop [for inp in inputs] with its INSERT OR IGNORE. *)
Definition insert_change_inputs (orig_txid new_txid : string)
    (change_addr : option string) (change_idx : Z) (ts : string)
    (inputs : list (option string)) (table : list Table.change_input)
    : list Table.change_input :=
  fold_left
    (fun t inp =>
       insert_or_ignore change_input_conflict
         (change_input_row orig_txid new_txid change_addr change_idx ts inp) t)
    inputs table.

(** The integers SQLite stores: [sqlite3] refuses to bind a Python [int]
    outside the signed 64 bits and raises [OverflowError].  The integers read
    back from the store fit; the difference of two of them need not. *)
Definition sqlite_integer (z : Z) : bool :=
  Z.leb (- 2 ^ 63) z && Z.ltb z (2 ^ 63).

Definition record_replacement (E : env) (orig_txid new_txid : string)
    (w : world) : outcome * world :=
  let s := db w in
  let orig_by_idx := by_idx (select_outputs orig_txid s) in
  let new_by_idx := by_idx (select_outputs new_txid s) in
  if negb (same_key_set orig_by_idx new_by_idx) then (Done, w)
  else
    match collect_diffs orig_by_idx new_by_idx [] with
    | ScanReturn => (Done, w)
    | ScanKeyError => (Raised (KeyError "idx"), w)
    | ScanDone [(change_idx, change_addr, orig_val, new_val)] =>
        match orig_val, new_val with
        | Some old_val, Some new_val =>
            if Z.geb new_val old_val then (Done, w)
            else
              let diff := old_val - new_val in
              let ts := now_iso E w in
              if negb (sqlite_integer diff)
              then (Raised OverflowError, tick w s)
              else
              let s1 :=
                with_replacements
                  (insert_or_ignore replacement_conflict
                     (replacement_row orig_txid new_txid change_addr
                        change_idx old_val new_val ts)
                     (replacements s)) s in
              let inputs := select_input_addresses orig_txid s1 in
              let s2 :=
                with_change_inputs
                  (insert_change_inputs orig_txid new_txid change_addr
                     change_idx ts inputs (change_inputs s1)) s1 in
              (Done, tick w s2)
        | _, _ => (Raised TypeError, w)
        end
    | ScanDone _ => (Done, w)
    end.

(** ** Ingestion of one transaction *)

(** The loop [for vin in tx.get("vin", [])] that inserts the inputs and
    computes [is_rbf]; the subscripts [vin["txid"]] and [vin["vout"]] raise
    when the key is absent, before the INSERT of that input. *)
Fixpoint insert_inputs (txid : string) (vins : list Json.Vin.t)
    (table : list Table.tx_input) (is_rbf : bool)
    : outcome * list Table.tx_input * bool :=
  match vins with
  | [] => (Done, table, is_rbf)
  | vin :: rest =>
      let seq := get_or (Json.Vin.sequence vin) 0 in
      let prev :=
        get_or (Json.Vin.prevout vin)
          {| Json.Prevout.scriptpubkey_address := None;
             Json.Prevout.value := None |} in
      match Json.Vin.txid vin, Json.Vin.vout vin with
      | None, _ => (Raised (KeyError "txid"), table, is_rbf)
      | Some _, None => (Raised (KeyError "vout"), table, is_rbf)
      | Some ptxid, Some pvout =>
          insert_inputs txid rest
            (table ++ [{| Table.in_txid := txid; Table.prev_txid := ptxid;
                          Table.prev_vout := pvout;
                          Table.in_address := Json.Prevout.scriptpubkey_address prev;
                          Table.in_value := Json.Prevout.value prev;
                          Table.sequence := seq |}])
            (if Z.ltb seq RBF_SEQ_THRESHOLD then true else is_rbf)
      end
  end.

(** The loop [for idx, vout in enumerate(tx.get("vout", []))]. *)
Fixpoint insert_outputs (txid : string) (idx : Z) (vouts : list Json.Vout.t)
    (table : list Table.tx_output) : list Table.tx_output :=
  match vouts with
  | [] => table
  | vout :: rest =>
      insert_outputs txid (idx + 1) rest
        (table ++ [{| Table.out_txid := txid; Table.vout_index := idx;
                      Table.out_address := Json.Vout.scriptpubkey_address vout;
                      Table.out_value := Json.Vout.value vout |}])
  end.

(** [SELECT ti.txid FROM tx_inputs ti JOIN rbf_txs r ON ti.txid = r.txid
     WHERE ti.prev_txid = ? AND ti.prev_vout = ?], rows in table order. *)
Definition select_spenders (ptxid : string) (pvout : Z) (s : store)
    : list string :=
  flat_map
    (fun ti =>
       map (fun _ => Table.in_txid ti)
         (filter (fun r => String.eqb (Table.in_txid ti) (Table.rbf_txid r))
            (rbf_txs s)))
    (filter
       (fun ti =>
          String.eqb (Table.prev_txid ti) ptxid && Z.eqb (Table.prev_vout ti) pvout)
       (tx_inputs s)).

(** [for (orig_txid,) in c2.fetchall(): if orig_txid != txid: ...] *)
Fixpoint replace_each (E : env) (txid : string) (origs : list string)
    (w : world) : outcome * world :=
  match origs with
  | [] => (Done, w)
  | orig_txid :: rest =>
      if negb (String.eqb orig_txid txid) then
        match record_replacement E orig_txid txid w with
        | (Done, w') => replace_each E txid rest w'
        | (Raised e, w') => (Raised e, w')
        end
      else replace_each E txid rest w
  end.

(** The second loop over the inputs, run only for an opt-in RBF transaction. *)
Fixpoint detect_replacements (E : env) (txid : string) (vins : list Json.Vin.t)
    (w : world) : outcome * world :=
  match vins with
  | [] => (Done, w)
  | vin :: rest =>
      match Json.Vin.txid vin, Json.Vin.vout vin with
      | None, _ => (Raised (KeyError "txid"), w)
      | Some _, None => (Raised (KeyError "vout"), w)
      | Some ptxid, Some pvout =>
          match replace_each E txid (select_spenders ptxid pvout (db w)) w with
          | (Done, w') => detect_replacements E txid rest w'
          | (Raised e, w') => (Raised e, w')
          end
      end
  end.

Definition process_added_nocommit (E : env) (txid : string) (w : world)
    : outcome * world :=
  match fetch_tx E txid with
  | None => (Done, w)
  | Some txj =>
      let now := now_iso E w in
      let fee := get_or (Json.Tx.fee txj) 0 in
      let vsize := get_or (Json.Tx.vsize txj) 0 in
      let s := db w in
      let s1 :=
        with_tx
          (insert_or_ignore tx_conflict
             {| Table.tx_txid := txid; Table.fetched_at := now;
                Table.fee := fee; Table.vsize := vsize |} (tx s)) s in
      let vins := get_or (Json.Tx.vin txj) [] in
      match insert_inputs txid vins (tx_inputs s1) false with
      | (Raised e, inputs, _) => (Raised e, tick w (with_tx_inputs inputs s1))
      | (Done, inputs, is_rbf) =>
          let s2 := with_tx_inputs inputs s1 in
          let s3 :=
            with_tx_outputs
              (insert_outputs txid 0 (get_or (Json.Tx.vout txj) [])
                 (tx_outputs s2)) s2 in
          if is_rbf then
            let s4 :=
              with_rbf_txs
                (insert_or_ignore rbf_conflict
                   {| Table.rbf_txid := txid; Table.added_at := now |}
                   (rbf_txs s3)) s3 in
            detect_replacements E txid vins (tick w s4)
          else (Done, tick w s3)
      end
  end.

(** ** Retention purge *)

Definition MICROSECONDS_PER_DAY : Z := 86400000000.

(** [(datetime.utcnow() - timedelta(days=HISTORY_DAYS)).isoformat()] *)
Definition cutoff_iso (E : env) (w : world) : string :=
  isoformat E (utcnow E (ticks w) - HISTORY_DAYS * MICROSECONDS_PER_DAY).

(** [txid NOT IN (SELECT txid FROM tx)] is false exactly for the txids of the
    table. *)
Definition has_tx (t : list Table.tx) (txid : string) : bool :=
  existsb (fun r => String.eqb (Table.tx_txid r) txid) t.

(** The five DELETE statements; TEXT columns compare bytewise, as
    [String.ltb] does. *)
Definition purge_rows (ts : string) (s : store) : store :=
  let t := filter (fun r => negb (String.ltb (Table.fetched_at r) ts)) (tx s) in
  {| tx := t;
     tx_inputs := filter (fun r => has_tx t (Table.in_txid r)) (tx_inputs s);
     tx_outputs := filter (fun r => has_tx t (Table.out_txid r)) (tx_outputs s);
     rbf_txs :=
       filter (fun r => negb (String.ltb (Table.added_at r) ts)) (rbf_txs s);
     replacements :=
       filter (fun r => negb (String.ltb (Table.detected_at r) ts))
         (replacements s);
     change_inputs := change_inputs s |}.

(** The connection of the Batch Worker: the rows its statements see, the
    rows of the last commit, and whether it was closed. *)
Record connection := {
  live : world;
  committed : store;
  closed : bool }.

Definition commit (c : connection) : connection :=
  {| live := live c; committed := db (live c); closed := closed c |}.

Definition close (c : connection) : connection :=
  {| live := live c; committed := committed c; closed := true |}.

Definition on_live (c : connection) (w : world) : connection :=
  {| live := w; committed := committed c; closed := closed c |}.

Definition purge_old (E : env) (c : connection) : connection :=
  let w := live c in
  commit (on_live c (tick w (purge_rows (cutoff_iso E w) (db w)))).

(** ** The threads *)

Inductive event : Type :=
| Added (txid : string)
| Purge
| Stop
| Unknown (tag : string).

Inductive thread_status : Type :=
| Waiting          (* alive: asleep or blocked on the next input *)
| Terminated       (* [run] returned *)
| Died (e : exn).  (* [run] was left by an uncaught exception *)

(** *** Poller *)

(** One call of [fetch_mempool_full]: the txid list, or [None] when it
    raised. *)
Definition snapshot : Type := option (list string).

Definition seen (last : list string) (txid : string) : bool :=
  existsb (String.eqb txid) last.

(** The [while True] loop with its [try/except Exception]; one iteration per
    answer of the API. *)
Fixpoint poll_loop (answers : list snapshot) (last : list string)
    : list event * list string :=
  match answers with
  | [] => ([], last)
  | None :: rest => poll_loop rest last
  | Some txids :: rest =>
      let new_txids := filter (fun t => negb (seen last t)) txids in
      let (events, last') := poll_loop rest txids in
      (map Added new_txids ++ events, last')
  end.

(** [Poller.run] against the successive answers of the API: the events put
    on the queue, the last baseline and what became of the thread. *)
Definition poller_run (answers : list snapshot)
    : thread_status * list event * list string :=
  match answers with
  | [] => (Waiting, [], [])
  | None :: _ => (Died RequestException, [], [])
  | Some initial :: rest =>
      let (events, last) := poll_loop rest initial in
      (Waiting, map Added initial ++ events, last)
  end.

(** *** Batch Worker *)

Record worker := {
  buffer : list string;
  conn : connection;
  batch_size : nat }.

Definition with_buffer (b : worker) (buf : list string) : worker :=
  {| buffer := buf; conn := conn b; batch_size := batch_size b |}.

Definition with_conn (b : worker) (c : connection) : worker :=
  {| buffer := buffer b; conn := c; batch_size := batch_size b |}.

(** [for txid in self.buffer: process_added_nocommit(txid, self.conn)] *)
Fixpoint process_all (E : env) (txids : list string) (w : world)
    : outcome * world :=
  match txids with
  | [] => (Done, w)
  | txid :: rest =>
      match process_added_nocommit E txid w with
      | (Done, w') => process_all E rest w'
      | (Raised e, w') => (Raised e, w')
      end
  end.

Definition flush_batch (E : env) (b : worker) : outcome * worker :=
  match process_all E (buffer b) (live (conn b)) with
  | (Done, w') =>
      (Done, with_buffer (with_conn b (commit (on_live (conn b) w'))) [])
  | (Raised e, w') => (Raised e, with_conn b (on_live (conn b) w'))
  end.

Inductive loop_exit : Type :=
| Break
| Failed (e : exn)
| Starved.

(** The [while True] loop of [BatchWorker.run] over the events the queue
    delivers, in order. *)
Fixpoint run_loop (E : env) (events : list event) (b : worker)
    : loop_exit * worker :=
  match events with
  | [] => (Starved, b)
  | Added txid :: rest =>
      let b1 := with_buffer b (buffer b ++ [txid]) in
      if Nat.leb (batch_size b1) (List.length (buffer b1)) then
        match flush_batch E b1 with
        | (Done, b2) => run_loop E rest b2
        | (Raised e, b2) => (Failed e, b2)
        end
      else run_loop E rest b1
  | Purge :: rest => run_loop E rest (with_conn b (purge_old E (conn b)))
  | Stop :: _ => (Break, b)
  | Unknown _ :: rest => run_loop E rest b
  end.

(** The [finally] clause. *)
Definition finally_clause (E : env) (b : worker) : outcome * worker :=
  match
    match buffer b with
    | [] => (Done, b)
    | _ :: _ => flush_batch E b
    end
  with
  | (Done, b1) => (Done, with_conn b1 (close (commit (conn b1))))
  | (Raised e, b1) => (Raised e, b1)
  end.

Definition run (E : env) (events : list event) (b : worker)
    : thread_status * worker :=
  match run_loop E events b with
  | (Starved, b1) => (Waiting, b1)
  | (Break, b1) =>
      match finally_clause E b1 with
      | (Done, b2) => (Terminated, b2)
      | (Raised e, b2) => (Died e, b2)
      end
  | (Failed e, b1) =>
      match finally_clause E b1 with
      | (Done, b2) => (Died e, b2)
      | (Raised e', b2) => (Died e', b2)
      end
  end.

(** The worker [main] starts: empty buffer over the connection of
    [init_db]. *)
Definition new_worker (size : nat) : worker :=
  {| buffer := [];
     conn := {| live := {| db := empty_store; ticks := 0 |};
                committed := empty_store; closed := false |};
     batch_size := size |}.

(** ** Vocabulary of the properties *)

(** The entries the scan collects when no address differs. *)
Definition diffs_of (items new_by_idx : py_dict) : list diff_entry :=
  flat_map
    (fun item : Z * output_info =>
       let '(idx, (a, v)) := item in
       match dict_get idx new_by_idx with
       | Some (_, v') => if py_eq_int v v' then [] else [(idx, a, v, v')]
       | None => []
       end)
    items.

(** The persisted output of [txid] at index [idx] as the detector reads it:
    the last stored row of that pair, which is the only one as long as
    (txid, vout_index) is unique in [tx_outputs]. *)
Definition output_at (s : store) (txid : string) (idx : Z)
    : option output_info :=
  fold_left
    (fun found r =>
       if Z.eqb idx (Table.vout_index r)
       then Some (Table.out_address r, Table.out_value r)
       else found)
    (select_outputs txid s) None.

(** Both transactions have an output at [idx] and the two values differ. *)
Definition value_differs (s : store) (orig new : string) (idx : Z) : Prop :=
  exists a v a' v',
    output_at s orig idx = Some (a, v)
    /\ output_at s new idx = Some (a', v')
    /\ v <> v'.

(** The four silent rejections of the detector. *)
Inductive rejected (s : store) (orig new : string) : Prop :=
| index_sets_differ (idx : Z) :
    (output_at s orig idx <> None /\ output_at s new idx = None)
    \/ (output_at s orig idx = None /\ output_at s new idx <> None) ->
    rejected s orig new
| address_differs (idx : Z) (a a' : option string) (v v' : option Z) :
    output_at s orig idx = Some (a, v) ->
    output_at s new idx = Some (a', v') ->
    a <> a' ->
    rejected s orig new
| not_exactly_one_differs :
    ~ (exists idx, value_differs s orig new idx
                   /\ forall j, value_differs s orig new j -> j = idx) ->
    rejected s orig new
| not_a_shrink (idx : Z) (a a' : option string) (old_val new_val : Z) :
    output_at s orig idx = Some (a, Some old_val) ->
    output_at s new idx = Some (a', Some new_val) ->
    (forall j, value_differs s orig new j -> j = idx) ->
    new_val >= old_val ->
    rejected s orig new.

(** A stamp is older than the retention window when its text sorts before
    the cutoff. *)
Definition older_than (ts stamp : string) : Prop := String.ltb stamp ts = true.


(** Every input object carries the two keys the tracker subscripts. *)
Definition inputs_well_formed (txj : Json.Tx.t) : Prop :=
  forall vin, In vin (get_or (Json.Tx.vin txj) []) ->
    Json.Vin.txid vin <> None /\ Json.Vin.vout vin <> None.

(** Rows of [table] whose (txid, vout_index) is the given pair. *)
Definition outputs_of (txid : string) (idx : Z) (table : list Table.tx_output)
    : list Table.tx_output :=
  filter
    (fun r => String.eqb (Table.out_txid r) txid && Z.eqb (Table.vout_index r) idx)
    table.

(** Two worlds with the same ingested rows: they can differ only in
    [replacements], [change_inputs] and the clock. *)
Definition same_ingested (w w' : world) : Prop :=
  tx (db w') = tx (db w) /\ tx_inputs (db w') = tx_inputs (db w)
  /\ tx_outputs (db w') = tx_outputs (db w) /\ rbf_txs (db w') = rbf_txs (db w).

(** Two worlds with the same detections. *)
Definition same_detections (w w' : world) : Prop :=
  replacements (db w') = replacements (db w)
  /\ change_inputs (db w') = change_inputs (db w).

(** An input signals replaceability: its sequence, 0 when the key is absent,
    is below the threshold. *)
Definition signals_rbf (vin : Json.Vin.t) : Prop :=
  get_or (Json.Vin.sequence vin) 0 < RBF_SEQ_THRESHOLD.

Definition is_rbf_candidate (s : store) (txid : string) : Prop :=
  In txid (map Table.rbf_txid (rbf_txs s)).

(** ** Sample data *)

Module Sample.

Definition clock : nat -> Z := fun n => 1700000000000000 + Z.of_nat n.

(** A stand-in for [isoformat]: the scenarios do not depend on stamps. *)
Definition stamp : Z -> string := fun _ => "2023-11-14T22:13:20".

Definition out (txid : string) (idx : Z) (addr : string) (v : Z)
    : Table.tx_output :=
  {| Table.out_txid := txid; Table.vout_index := idx;
     Table.out_address := Some addr; Table.out_value := Some v |}.

Definition inp (txid ptxid : string) (pvout : Z) (addr : option string)
    : Table.tx_input :=
  {| Table.in_txid := txid; Table.prev_txid := ptxid; Table.prev_vout := pvout;
     Table.in_address := addr; Table.in_value := Some 2000;
     Table.sequence := 0xFFFFFFFD |}.

Definition with_outputs (news : list Table.tx_output) : store :=
  {| tx := [];
     tx_inputs := [inp "orig" "p" 0 (Some "X"); inp "orig" "p" 1 (Some "Y");
                   inp "orig" "p" 2 (Some "X")];
     tx_outputs := [out "orig" 0 "A" 1000; out "orig" 1 "B" 500] ++ news;
     rbf_txs := []; replacements := []; change_inputs := [] |}.

(** Scenarios A, B and C of the specification. *)
Definition scenario_A : store :=
  with_outputs [out "new" 0 "A" 1000; out "new" 1 "B" 480].
Definition scenario_B : store :=
  with_outputs [out "new" 0 "A" 900; out "new" 1 "B" 480].
Definition scenario_C : store :=
  with_outputs [out "new" 0 "A" 1000; out "new" 1 "B" 520].

Definition jin (ptxid : string) (pvout : Z) (seq : option Z)
    (addr : option string) : Json.Vin.t :=
  {| Json.Vin.txid := Some ptxid; Json.Vin.vout := Some pvout;
     Json.Vin.sequence := seq;
     Json.Vin.prevout :=
       Some {| Json.Prevout.scriptpubkey_address := addr;
               Json.Prevout.value := Some 2000 |} |}.

Definition jout (addr : string) (v : Z) : Json.Vout.t :=
  {| Json.Vout.scriptpubkey_address := Some addr; Json.Vout.value := Some v |}.

Definition jtx (vins : list Json.Vin.t) (vouts : list Json.Vout.t) : Json.Tx.t :=
  {| Json.Tx.fee := Some 300; Json.Tx.vsize := Some 140;
     Json.Tx.vin := Some vins; Json.Tx.vout := Some vouts |}.

(** [orig] spends two outpoints, the first from a script without an
    address; [new] spends the same two and pays 20 less to B. *)
Definition orig_tx : Json.Tx.t :=
  jtx [jin "p" 0 (Some 0xFFFFFFFD) None; jin "p" 1 (Some 0xFFFFFFFD) (Some "X")]
      [jout "A" 1000; jout "B" 500].
Definition new_tx : Json.Tx.t :=
  jtx [jin "p" 0 (Some 0xFFFFFFFD) None; jin "p" 1 (Some 0xFFFFFFFD) (Some "X")]
      [jout "A" 1000; jout "B" 480].

(** An input object without its [txid] key. *)
Definition bad_tx : Json.Tx.t :=
  jtx [{| Json.Vin.txid := None; Json.Vin.vout := Some 0;
          Json.Vin.sequence := Some 0xFFFFFFFD; Json.Vin.prevout := None |}]
      [jout "A" 1000].

Definition good_tx : Json.Tx.t :=
  jtx [jin "q" 0 (Some 0xFFFFFFFF) (Some "Z")] [jout "C" 700].

(** A final transaction, every sequence 0xFFFFFFFF, that spends the
    outpoints [orig] spends. *)
Definition final_tx : Json.Tx.t :=
  jtx [jin "p" 0 (Some 0xFFFFFFFF) None; jin "p" 1 (Some 0xFFFFFFFF) (Some "X")]
      [jout "A" 1000; jout "B" 480].

(** Keys [sequence], [fee] and [vsize] absent. *)
Definition bare_tx : Json.Tx.t :=
  {| Json.Tx.fee := None; Json.Tx.vsize := None;
     Json.Tx.vin :=
       Some [{| Json.Vin.txid := Some "q"; Json.Vin.vout := Some 0;
                Json.Vin.sequence := None; Json.Vin.prevout := None |}];
     Json.Tx.vout := Some [jout "C" 700] |}.

Definition api (txid : string) : option Json.Tx.t :=
  if String.eqb txid "orig" then Some orig_tx
  else if String.eqb txid "new" then Some new_tx
  else if String.eqb txid "bad" then Some bad_tx
  else if String.eqb txid "good" then Some good_tx
  else if String.eqb txid "final" then Some final_tx
  else if String.eqb txid "bare" then Some bare_tx
  else None.

Definition E : env :=
  {| utcnow := clock; isoformat := stamp; fetch_tx := api |}.

Definition fresh : world := {| db := empty_store; ticks := 0 |}.

End Sample.

(** ** The HTTP client of [fetch_tx] *)

Module Http.

(** What [resp.json()] makes of the body of a response: a JSON object, the
    JSON value [null], or a [JSONDecodeError] on a body that is not JSON (a
    body of another JSON type is left out). *)
Inductive body : Type :=
| Object (txj : Json.Tx.t)
| Null
| Malformed.

(** What [session.get] comes back with, retries included: a response with
    its status code and body, or a [RequestException]. *)
Inductive reply : Type :=
| Response (status_code : Z) (content : body)
| Failure.

(** How a call ends: with a [return], of a transaction or of [None], or
    with an exception. *)
Inductive result : Type :=
| Returns (txj : option Json.Tx.t)
| Raises (e : exn).

(** The global [counters] dictionary. *)
Record counters := {
  total_requests : Z;
  success : Z;
  notfound : Z;
  http_errors : Z;
  network_errors : Z;
  processed : Z }.

Definition zero : counters :=
  {| total_requests := 0; success := 0; notfound := 0; http_errors := 0;
     network_errors := 0; processed := 0 |}.

Definition count_request (c : counters) : counters :=
  {| total_requests := total_requests c + 1; success := success c;
     notfound := notfound c; http_errors := http_errors c;
     network_errors := network_errors c; processed := processed c |}.

Definition count_success (c : counters) : counters :=
  {| total_requests := total_requests c; success := success c + 1;
     notfound := notfound c; http_errors := http_errors c;
     network_errors := network_errors c; processed := processed c |}.

Definition count_notfound (c : counters) : counters :=
  {| total_requests := total_requests c; success := success c;
     notfound := notfound c + 1; http_errors := http_errors c;
     network_errors := network_errors c; processed := processed c |}.

Definition count_http_error (c : counters) : counters :=
  {| total_requests := total_requests c; success := success c;
     notfound := notfound c; http_errors := http_errors c + 1;
     network_errors := network_errors c; processed := processed c |}.

Definition count_network_error (c : counters) : counters :=
  {| total_requests := total_requests c; success := success c;
     notfound := notfound c; http_errors := http_errors c;
     network_errors := network_errors c + 1; processed := processed c |}.

(** [resp.raise_for_status()] raises [HTTPError] on a 4xx or 5xx status. *)
Definition raises_for_status (status_code : Z) : bool :=
  Z.leb 400 status_code && Z.ltb status_code 600.

(** [fetch_tx(txid)] given what the request for that txid comes back with:
    how the call ends, and the counters afterwards.  The handlers cover the
    request and [raise_for_status] only: [success] is counted and the body
    parsed after them, so a body that is not JSON raises out of the call. *)
Definition fetch_tx (r : reply) (c : counters) : result * counters :=
  let c := count_request c in
  match r with
  | Response status_code content =>
      if raises_for_status status_code then
        if Z.eqb status_code 404 then (Returns None, count_notfound c)
        else (Returns None, count_http_error c)
      else
        let c := count_success c in
        match content with
        | Object txj => (Returns (Some txj), c)
        | Null => (Returns None, c)
        | Malformed => (Raises JSONDecodeError, c)
        end
  | Failure => (Returns None, count_network_error c)
  end.

(** Every request counted so far is counted under exactly one outcome. *)
Definition balanced (c : counters) : Prop :=
  total_requests c
  = success c + notfound c + http_errors c + network_errors c.

End Http.

(** ** Vocabulary of the further properties *)

(** The store after the detector recorded the shrink of output [i] of
    [orig] from [o] to [n] at time [ts]. *)
Definition with_event (orig new : string) (addr : option string)
    (i o n : Z) (ts : string) (s : store) : store :=
  with_change_inputs
    (insert_change_inputs orig new addr i ts (select_input_addresses orig s)
       (change_inputs s))
    (with_replacements
       (insert_or_ignore replacement_conflict
          (replacement_row orig new addr i o n ts) (replacements s)) s).

(** The outputs of [orig] and [new] agree on indices and addresses and
    differ in value at index [i] alone, where [o] shrinks to [n]. *)
Definition shrink_at (s : store) (orig new : string) (i : Z)
    (addr : option string) (o n : Z) : Prop :=
  (forall idx, output_at s orig idx = None <-> output_at s new idx = None)
  /\ (forall idx a v a' v',
        output_at s orig idx = Some (a, v) ->
        output_at s new idx = Some (a', v') -> a = a')
  /\ output_at s orig i = Some (addr, Some o)
  /\ output_at s new i = Some (addr, Some n)
  /\ (forall j, value_differs s orig new j -> j = i)
  /\ n < o.

(** Every stored event is a strict shrink between two different
    transactions, with the difference it claims. *)
Definition events_are_shrinks (s : store) : Prop :=
  forall r, In r (replacements s) ->
    Table.new_value r < Table.old_value r
    /\ Table.diff r = Table.old_value r - Table.new_value r
    /\ Table.orig_txid r <> Table.new_txid r.

(** Every stored mapping has an event of the same pair, address and
    index. *)
Definition mappings_have_events (s : store) : Prop :=
  forall m, In m (change_inputs s) ->
    exists r, In r (replacements s)
      /\ Table.orig_txid r = Table.ci_orig_txid m
      /\ Table.new_txid r = Table.ci_new_txid m
      /\ Table.change_address r = Table.ci_change_address m
      /\ Table.change_vout_index r = Table.ci_change_vout_index m.

(** Every row of the first store is a row of the second, table by table. *)
Definition grows (s s' : store) : Prop :=
  incl (tx s) (tx s') /\ incl (tx_inputs s) (tx_inputs s')
  /\ incl (tx_outputs s) (tx_outputs s') /\ incl (rbf_txs s) (rbf_txs s')
  /\ incl (replacements s) (replacements s')
  /\ incl (change_inputs s) (change_inputs s').

(** The connection holds no uncommitted row. *)
Definition settled (c : connection) : Prop := committed c = db (live c).

(** The output rows [process_added_nocommit] stores for the outputs of a
    transaction, numbered from [idx]. *)
Definition output_rows (txid : string) (idx : Z) (vouts : list Json.Vout.t)
    : list Table.tx_output :=
  map
    (fun p : nat * Json.Vout.t =>
       {| Table.out_txid := txid; Table.vout_index := idx + Z.of_nat (fst p);
          Table.out_address := Json.Vout.scriptpubkey_address (snd p);
          Table.out_value := Json.Vout.value (snd p) |})
    (combine (seq 0 (List.length vouts)) vouts).

(** The successful answers among those of the API. *)
Definition successes (answers : list snapshot) : list snapshot :=
  filter (fun a => match a with Some _ => true | None => false end) answers.

(** The txids the events of the Poller announce, in order. *)
Definition added_txids (events : list event) : list string :=
  flat_map (fun ev => match ev with Added t => [t] | _ => [] end) events.

Definition is_unknown (ev : event) : bool :=
  match ev with
  | Unknown _ => true
  | _ => false
  end.

(** A property holds on the rows the connection sees and on the rows it
    has committed. *)
Definition holds_on (P : store -> Prop) (c : connection) : Prop :=
  P (db (live c)) /\ P (committed c).

(** The pair the detector looks outputs up by. *)
Definition output_key (r : Table.tx_output) : string * Z :=
  (Table.out_txid r, Table.vout_index r).

(** At most one output row per (txid, vout_index). *)
Definition unique_outputs (s : store) : Prop :=
  NoDup (map output_key (tx_outputs s)).

(** ** Further sample data *)

Module Fixture.

(** An API that knows three transactions. *)
Definition api (txid : string) : option Json.Tx.t :=
  if String.eqb txid "orig" then Some Sample.orig_tx
  else if String.eqb txid "new" then Some Sample.new_tx
  else if String.eqb txid "good" then Some Sample.good_tx
  else None.

Definition E : env :=
  {| utcnow := Sample.clock; isoformat := Sample.stamp; fetch_tx := api |}.

(** Scenario A of the specification after the detector has run. *)
Definition recorded : store :=
  db (snd (record_replacement Sample.E "orig" "new"
             {| db := Sample.scenario_A; ticks := 0 |})).

(** A transaction with its input and output rows, stamped 2024-01-01. *)
Definition consistent : store :=
  {| tx := [{| Table.tx_txid := "orig";
               Table.fetched_at := "2024-01-01T00:00:00";
               Table.fee := 300; Table.vsize := 140 |}];
     tx_inputs := [Sample.inp "orig" "p" 0 (Some "X")];
     tx_outputs := [Sample.out "orig" 0 "A" 1000];
     rbf_txs := [{| Table.rbf_txid := "orig";
                    Table.added_at := "2024-01-01T00:00:00" |}];
     replacements := [];
     change_inputs := [] |}.

(** Scenario A with the value of output 1 of [orig] missing. *)
Definition null_value : store :=
  {| tx := []; tx_inputs := [];
     tx_outputs :=
       [Sample.out "orig" 0 "A" 1000;
        {| Table.out_txid := "orig"; Table.vout_index := 1;
           Table.out_address := Some "B"; Table.out_value := None |};
        Sample.out "new" 0 "A" 1000; Sample.out "new" 1 "B" 480];
     rbf_txs := []; replacements := []; change_inputs := [] |}.

Definition scenario_A_world : world :=
  {| db := Sample.scenario_A; ticks := 0 |}.

(** An API whose every request fails. *)
Definition offline : env :=
  {| utcnow := Sample.clock; isoformat := Sample.stamp;
     fetch_tx := fun _ => None |}.

(** Scenario A with values whose difference is 2^63. *)
Definition overflow : store :=
  Sample.with_outputs
    [Sample.out "orig" 2 "C" 9223372036854775807;
     Sample.out "new" 0 "A" 1000; Sample.out "new" 1 "B" 500;
     Sample.out "new" 2 "C" (-1)].

(** The second input object lacks its [vout] key; the first one signals
    replaceability. *)
Definition half_tx : Json.Tx.t :=
  Sample.jtx
    [Sample.jin "p" 0 (Some 0) (Some "X");
     {| Json.Vin.txid := Some "p"; Json.Vin.vout := None;
        Json.Vin.sequence := Some 0xFFFFFFFF; Json.Vin.prevout := None |}]
    [Sample.jout "A" 1000].

(** Keys [fee], [vsize] absent, and an input object that lacks both
    [sequence] and [txid]. *)
Definition keyless_tx : Json.Tx.t :=
  {| Json.Tx.fee := None; Json.Tx.vsize := None;
     Json.Tx.vin :=
       Some [{| Json.Vin.txid := None; Json.Vin.vout := Some 0;
                Json.Vin.sequence := None; Json.Vin.prevout := None |}];
     Json.Tx.vout := Some [Sample.jout "C" 700] |}.

Definition malformed_api (txid : string) : option Json.Tx.t :=
  if String.eqb txid "half" then Some half_tx
  else if String.eqb txid "keyless" then Some keyless_tx
  else Sample.api txid.

Definition malformed : env :=
  {| utcnow := Sample.clock; isoformat := Sample.stamp;
     fetch_tx := malformed_api |}.

(** A store that already holds a row of "bare", with a fee and a size. *)
Definition stored_bare : world :=
  {| db := with_tx [{| Table.tx_txid := "bare";
                       Table.fetched_at := "2023-11-14T22:00:00";
                       Table.fee := 300; Table.vsize := 140 |}] empty_store;
     ticks := 0 |}.

(** [k] decimal digits of [n], most significant first, before [rest]. *)
Fixpoint decimal (k : nat) (n : Z) (rest : string) : string :=
  match k with
  | O => rest
  | S k' =>
      decimal k' (n / 10)
        (String (Ascii.ascii_of_N (Z.to_N (48 + n mod 10))) rest)
  end.

(** [datetime.isoformat] of the naive datetime [z] microseconds after
    1970-01-01T00:00:00, for the years 1 to 9999 of the proleptic Gregorian
    calendar: YYYY-MM-DDTHH:MM:SS, followed by .ffffff unless the
    microseconds are zero. *)
Definition isoformat_utc (z : Z) : string :=
  let days := z / 86400000000 in
  let us := z mod 86400000000 in
  let secs := us / 1000000 in
  let frac := us mod 1000000 in
  let shifted := days + 719468 in
  let era := shifted / 146097 in
  let doe := shifted mod 146097 in
  let yoe := (doe - doe / 1460 + doe / 36524 - doe / 146096) / 365 in
  let doy := doe - (365 * yoe + yoe / 4 - yoe / 100) in
  let mp := (5 * doy + 2) / 153 in
  let day := doy - (153 * mp + 2) / 5 + 1 in
  let month := if Z.ltb mp 10 then mp + 3 else mp - 9 in
  let year := yoe + era * 400 + (if Z.leb month 2 then 1 else 0) in
  decimal 4 year (String.append "-" (decimal 2 month (String.append "-" (decimal 2 day
    (String.append "T" (decimal 2 (secs / 3600) (String.append ":"
      (decimal 2 (secs / 60 mod 60) (String.append ":" (decimal 2 (secs mod 60)
        (if Z.eqb frac 0 then EmptyString
         else String.append "." (decimal 6 frac EmptyString)))))))))))).

(** The clock of the samples with stamps as Python prints them. *)
Definition calendar : env :=
  {| utcnow := Sample.clock; isoformat := isoformat_utc;
     fetch_tx := Sample.api |}.

Definition stamped_tx (txid stamp : string) : Table.tx :=
  {| Table.tx_txid := txid; Table.fetched_at := stamp;
     Table.fee := 300; Table.vsize := 140 |}.

Definition stamped_event (orig new stamp : string) : Table.replacement :=
  {| Table.orig_txid := orig; Table.new_txid := new;
     Table.change_address := Some "B"; Table.change_vout_index := 1;
     Table.old_value := 500; Table.new_value := 480; Table.diff := 20;
     Table.detected_at := stamp |}.

(** Rows fetched thirteen days, seven days and a microsecond, exactly
    seven days, and four days before the first clock read of [calendar],
    which is 2023-11-14T22:13:20. *)
Definition aged : store :=
  {| tx := [stamped_tx "old" "2023-11-01T00:00:00";
            stamped_tx "late" "2023-11-07T22:13:19.999999";
            stamped_tx "edge" "2023-11-07T22:13:20";
            stamped_tx "young" "2023-11-10T12:00:00.500000"];
     tx_inputs := [Sample.inp "old" "p" 0 (Some "X");
                   Sample.inp "late" "p" 1 (Some "X");
                   Sample.inp "edge" "p" 2 (Some "Y");
                   Sample.inp "young" "p" 3 (Some "Y")];
     tx_outputs := [Sample.out "old" 0 "A" 1000; Sample.out "late" 0 "A" 900;
                    Sample.out "edge" 0 "B" 800; Sample.out "young" 0 "B" 700];
     rbf_txs := [{| Table.rbf_txid := "old";
                    Table.added_at := "2023-11-01T00:00:00" |};
                 {| Table.rbf_txid := "young";
                    Table.added_at := "2023-11-10T12:00:00.500000" |}];
     replacements := [stamped_event "old" "late" "2023-11-07T22:13:19.999999";
                      stamped_event "edge" "young" "2023-11-10T12:00:00.500000"];
     change_inputs :=
       [{| Table.ci_orig_txid := "old"; Table.ci_new_txid := "late";
           Table.ci_change_address := Some "B";
           Table.ci_change_vout_index := 1;
           Table.input_address := Some "X";
           Table.ci_detected_at := "2023-11-07T22:13:19.999999" |}] |}.

Definition aged_connection : connection :=
  {| live := {| db := aged; ticks := 0 |}; committed := aged;
     closed := false |}.

End Fixture.

(** * Properties *)

(** ** INSERT OR IGNORE *)

Section InsertOrIgnore.

Context {R : Type} (conflict : R -> R -> bool).

Lemma insert_or_ignore_keeps (r x : R) (table : list R) :
  In x table -> In x (insert_or_ignore conflict r table).
Proof.
  unfold insert_or_ignore. destruct (existsb _ table); auto.
  intro H. apply in_or_app. now left.
Qed.

Lemma insert_or_ignore_fresh (r : R) (table : list R) :
  (forall x, In x table -> conflict r x = false) ->
  insert_or_ignore conflict r table = table ++ [r].
Proof.
  intro H. unfold insert_or_ignore.
  destruct (existsb (conflict r) table) eqn:Hex; [|reflexivity].
  apply existsb_exists in Hex as (x & Hin & Hc).
  rewrite (H x Hin) in Hc. discriminate.
Qed.

Lemma insert_or_ignore_present (r x : R) (table : list R) :
  In x table -> conflict r x = true ->
  insert_or_ignore conflict r table = table.
Proof.
  intros Hin Hc. unfold insert_or_ignore.
  destruct (existsb (conflict r) table) eqn:Hex; [reflexivity|].
  assert (existsb (conflict r) table = true) as Ht
    by (apply existsb_exists; eauto).
  congruence.
Qed.

(** A row that conflicts with itself is stored once, however often the
    statement runs. *)
Lemma insert_or_ignore_again (r : R) (table : list R) :
  conflict r r = true ->
  insert_or_ignore conflict r (insert_or_ignore conflict r table)
  = insert_or_ignore conflict r table.
Proof.
  intro Hself.
  destruct (existsb (conflict r) table) eqn:Hex.
  - unfold insert_or_ignore. now rewrite !Hex.
  - assert (insert_or_ignore conflict r table = table ++ [r]) as ->
      by (unfold insert_or_ignore; now rewrite Hex).
    apply insert_or_ignore_present with (x := r); auto.
    apply in_or_app. right. now left.
Qed.

(** A row that does not even conflict with itself is stored every time. *)
Lemma insert_or_ignore_never (r : R) (table : list R) :
  (forall x, conflict r x = false) ->
  insert_or_ignore conflict r (insert_or_ignore conflict r table)
  = table ++ [r; r].
Proof.
  intro Hnone.
  rewrite !insert_or_ignore_fresh by auto.
  now rewrite <- app_assoc.
Qed.

End InsertOrIgnore.

Lemma sql_key_eq_text_refl (a : string) : sql_key_eq_text (Some a) (Some a) = true.
Proof. simpl. apply String.eqb_refl. Qed.

(** With every key column bound to a value a second insert of a replacement
    is ignored. *)
Lemma replacement_insert_idempotent (r : Table.replacement)
    (table : list Table.replacement) :
  Table.change_address r <> None ->
  insert_or_ignore replacement_conflict r
    (insert_or_ignore replacement_conflict r table)
  = insert_or_ignore replacement_conflict r table.
Proof.
  intro Hnn. apply insert_or_ignore_again.
  unfold replacement_conflict.
  destruct (Table.change_address r) as [a|]; [|congruence].
  now rewrite !String.eqb_refl, sql_key_eq_text_refl, Z.eqb_refl.
Qed.

(** The same for a change-to-input mapping. *)
Lemma change_input_insert_idempotent (r : Table.change_input)
    (table : list Table.change_input) :
  Table.ci_change_address r <> None -> Table.input_address r <> None ->
  insert_or_ignore change_input_conflict r
    (insert_or_ignore change_input_conflict r table)
  = insert_or_ignore change_input_conflict r table.
Proof.
  intros Hc Hi. apply insert_or_ignore_again.
  unfold change_input_conflict.
  destruct (Table.ci_change_address r) as [a|]; [|congruence].
  destruct (Table.input_address r) as [b|]; [|congruence].
  now rewrite !String.eqb_refl, !sql_key_eq_text_refl, Z.eqb_refl.
Qed.

(** C3: a second INSERT OR IGNORE of the same key is not always a no-op.
    When the change address of a replacement, or the input address of a
    mapping, is NULL, the row conflicts with no stored row and both tables
    end up with two rows of that key; processing [orig] and then [new], which
    spends the same two outpoints, leaves two mappings with a NULL input
    address for the one pair. *)
Theorem null_key_inserted_twice :
  (forall orig new idx old_val new_val ts table,
     let r := replacement_row orig new None idx old_val new_val ts in
     insert_or_ignore replacement_conflict r
       (insert_or_ignore replacement_conflict r table) = table ++ [r; r])
  /\ (forall orig new addr idx ts table,
     let r := change_input_row orig new addr idx ts None in
     insert_or_ignore change_input_conflict r
       (insert_or_ignore change_input_conflict r table) = table ++ [r; r])
  /\ (let b := snd (run Sample.E [Added "orig"; Added "new"; Stop]
                      (new_worker 200)) in
      let r := change_input_row "orig" "new" (Some "B") 1
                 "2023-11-14T22:13:20" in
      change_inputs (committed (conn b)) = [r None; r (Some "X"); r None]).
Proof.
  split; [|split].
  - intros. apply insert_or_ignore_never. intro x.
    unfold replacement_conflict, r. simpl.
    now rewrite andb_false_r.
  - intros. apply insert_or_ignore_never. intro x.
    unfold change_input_conflict, r. simpl.
    now rewrite andb_false_r.
  - vm_compute. reflexivity.
Qed.

(** ** Retention purge *)

Lemma has_tx_true (t : list Table.tx) (txid : string) :
  has_tx t txid = true <-> exists r, In r t /\ Table.tx_txid r = txid.
Proof.
  unfold has_tx. rewrite existsb_exists. split.
  - intros (r & Hin & Heq). apply String.eqb_eq in Heq. eauto.
  - intros (r & Hin & Heq). exists r. split; auto. now apply String.eqb_eq.
Qed.

Lemma not_older_filter {R : Type} (stamp : R -> string) (ts : string)
    (table : list R) (r : R) :
  In r (filter (fun x => negb (String.ltb (stamp x) ts)) table)
  <-> In r table /\ ~ older_than ts (stamp r).
Proof.
  rewrite filter_In. unfold older_than.
  destruct (String.ltb (stamp r) ts); simpl; intuition congruence.
Qed.

Lemma kept_filter {R : Type} (stamp : R -> string) (ts : string)
    (table : list R) (r : R) :
  In r (filter (fun x => negb (String.ltb (stamp x) ts)) table)
  <-> In r table /\ String.ltb (stamp r) ts = false.
Proof.
  rewrite filter_In.
  destruct (String.ltb (stamp r) ts); simpl; intuition congruence.
Qed.

Lemma child_filter {R : Type} (key : R -> string) (t : list Table.tx)
    (table : list R) (r : R) :
  In r (filter (fun x => has_tx t (key x)) table)
  <-> In r table /\ exists p, In p t /\ Table.tx_txid p = key r.
Proof. rewrite filter_In, has_tx_true. reflexivity. Qed.

(** C4: [purge_old] reads the clock once and takes as cutoff the stamp of
    the instant 7 days (7 * 86400000000 microseconds) before.  It leaves
    [change_inputs] as it was; of [tx], [rbf_txs] and [replacements] it
    keeps exactly the rows whose stamp is not below the cutoff, as TEXT; of
    [tx_inputs] and [tx_outputs] it keeps exactly the rows whose
    transaction row is kept; and the result is committed.  With stamps that
    order as the instants they print, a row stamped at the instant [t] is
    kept exactly when [t] is no more than 7 days before the clock read. *)
Theorem purge_old_retention (E : env) (c : connection) :
  let now := utcnow E (ticks (live c)) in
  let ts := isoformat E (now - 7 * 86400000000) in
  let s := db (live c) in
  let c' := purge_old E c in
  let s' := db (live c') in
  change_inputs s' = change_inputs s
  /\ (forall r, In r (tx s') <->
                In r (tx s) /\ String.ltb (Table.fetched_at r) ts = false)
  /\ (forall r, In r (rbf_txs s') <->
                In r (rbf_txs s) /\ String.ltb (Table.added_at r) ts = false)
  /\ (forall r, In r (replacements s') <->
                In r (replacements s)
                /\ String.ltb (Table.detected_at r) ts = false)
  /\ (forall r, In r (tx_inputs s') <->
                In r (tx_inputs s)
                /\ exists t, In t (tx s') /\ Table.tx_txid t = Table.in_txid r)
  /\ (forall r, In r (tx_outputs s') <->
                In r (tx_outputs s)
                /\ exists t, In t (tx s') /\ Table.tx_txid t = Table.out_txid r)
  /\ committed c' = s'
  /\ ticks (live c') = S (ticks (live c))
  /\ closed c' = closed c
  /\ ((forall a b, String.ltb (isoformat E a) (isoformat E b) = true <-> a < b) ->
      forall t,
        (forall r, In r (tx s) -> Table.fetched_at r = isoformat E t ->
           (In r (tx s') <-> now - 7 * 86400000000 <= t))
        /\ (forall r, In r (rbf_txs s) -> Table.added_at r = isoformat E t ->
              (In r (rbf_txs s') <-> now - 7 * 86400000000 <= t))
        /\ (forall r, In r (replacements s) ->
              Table.detected_at r = isoformat E t ->
              (In r (replacements s') <-> now - 7 * 86400000000 <= t))).
Proof.
  cbn zeta. unfold purge_old, cutoff_iso, HISTORY_DAYS, MICROSECONDS_PER_DAY.
  simpl.
  split; [reflexivity|].
  split; [intro r; apply kept_filter|].
  split; [intro r; apply (kept_filter Table.added_at)|].
  split; [intro r; apply (kept_filter Table.detected_at)|].
  split; [intro r; apply (child_filter Table.in_txid)|].
  split; [intro r; apply (child_filter Table.out_txid)|].
  split; [reflexivity|]. split; [reflexivity|]. split; [reflexivity|].
  intros Hmono t.
  assert (Hkeep : forall stamp : string,
            stamp = isoformat E t ->
            String.ltb stamp
              (isoformat E (utcnow E (ticks (live c)) - 7 * 86400000000))
            = false
            <-> utcnow E (ticks (live c)) - 7 * 86400000000 <= t).
  { intros stamp ->.
    specialize (Hmono t (utcnow E (ticks (live c)) - 7 * 86400000000)).
    destruct (String.ltb (isoformat E t) _); split; intro H; try reflexivity;
      try discriminate.
    - exfalso. apply Z.le_ngt in H. apply H. now apply Hmono.
    - apply Z.le_ngt. intro Hlt. apply Hmono in Hlt. discriminate. }
  split; [|split]; intros r Hin Hst.
  - rewrite kept_filter, <- (Hkeep _ Hst). tauto.
  - rewrite (kept_filter Table.added_at), <- (Hkeep _ Hst). tauto.
  - rewrite (kept_filter Table.detected_at), <- (Hkeep _ Hst). tauto.
Qed.

(** The clock of [Fixture.calendar] reads 2023-11-14T22:13:20: the rows
    stamped 2023-11-07T22:13:20 and later stay, the rows stamped a
    microsecond before and earlier go, with their input and output rows. *)
Lemma purge_old_retention_witness :
  let c' := purge_old Fixture.calendar Fixture.aged_connection in
  let s' := db (live c') in
  isoformat Fixture.calendar
    (utcnow Fixture.calendar 0 - 7 * 86400000000) = "2023-11-07T22:13:20"
  /\ ~ In (Fixture.stamped_tx "old" "2023-11-01T00:00:00") (tx s')
  /\ ~ In (Fixture.stamped_tx "late" "2023-11-07T22:13:19.999999") (tx s')
  /\ In (Fixture.stamped_tx "edge" "2023-11-07T22:13:20") (tx s')
  /\ In (Fixture.stamped_tx "young" "2023-11-10T12:00:00.500000") (tx s')
  /\ ~ In (Sample.inp "late" "p" 1 (Some "X")) (tx_inputs s')
  /\ In (Sample.out "edge" 0 "B" 800) (tx_outputs s')
  /\ change_inputs s' = change_inputs Fixture.aged
  /\ committed c' = s'.
Proof.
  cbn zeta.
  pose proof (purge_old_retention Fixture.calendar Fixture.aged_connection)
    as H.
  cbn zeta in H.
  assert (Hts : isoformat Fixture.calendar
                  (utcnow Fixture.calendar
                     (ticks (live Fixture.aged_connection))
                   - 7 * 86400000000)
                = "2023-11-07T22:13:20") by (vm_compute; reflexivity).
  rewrite Hts in H. clear Hts.
  destruct H as (Hci & Htx & _ & _ & Hin & Hout & Hcommit & _).
  set (s' := db (live (purge_old Fixture.calendar Fixture.aged_connection)))
    in *.
  assert (Hgone : forall txid stamp,
            String.ltb stamp "2023-11-07T22:13:20" = true ->
            ~ In (Fixture.stamped_tx txid stamp) (tx s')).
  { intros txid stamp Hlt H. destruct (proj1 (Htx _) H) as [_ Hkept].
    unfold Fixture.stamped_tx in Hkept. cbn [Table.fetched_at] in Hkept.
    congruence. }
  assert (Hkept : forall txid stamp,
            In (Fixture.stamped_tx txid stamp) (tx Fixture.aged) ->
            String.ltb stamp "2023-11-07T22:13:20" = false ->
            In (Fixture.stamped_tx txid stamp) (tx s')).
  { intros txid stamp Hold Hge. apply (proj2 (Htx _)).
    split; [exact Hold | exact Hge]. }
  assert (Hedge : In (Fixture.stamped_tx "edge" "2023-11-07T22:13:20") (tx s'))
    by (apply Hkept; [do 2 right; left; reflexivity | vm_compute; reflexivity]).
  split; [vm_compute; reflexivity|].
  split; [apply Hgone; vm_compute; reflexivity|].
  split; [apply Hgone; vm_compute; reflexivity|].
  split; [exact Hedge|].
  split; [apply Hkept; [do 3 right; left; reflexivity
                        | vm_compute; reflexivity]|].
  split.
  - intro H. destruct (proj1 (Hin _) H) as [_ (t & Ht & Heq)].
    destruct (proj1 (Htx _) Ht) as [Hold Hk].
    cbn in Hold, Heq.
    destruct Hold as [<-|[<-|[<-|[<-|[]]]]]; try discriminate Heq.
    vm_compute in Hk. discriminate Hk.
  - split; [|split; [exact Hci | exact Hcommit]].
    apply (proj2 (Hout _)). split; [do 2 right; left; reflexivity|].
    exists (Fixture.stamped_tx "edge" "2023-11-07T22:13:20").
    split; [exact Hedge | reflexivity].
Defined.

(** The same purge, table by table. *)
Example purge_old_on_aged_rows :
  db (live (purge_old Fixture.calendar Fixture.aged_connection))
  = {| tx := [Fixture.stamped_tx "edge" "2023-11-07T22:13:20";
              Fixture.stamped_tx "young" "2023-11-10T12:00:00.500000"];
       tx_inputs := [Sample.inp "edge" "p" 2 (Some "Y");
                     Sample.inp "young" "p" 3 (Some "Y")];
       tx_outputs := [Sample.out "edge" 0 "B" 800;
                      Sample.out "young" 0 "B" 700];
       rbf_txs := [{| Table.rbf_txid := "young";
                      Table.added_at := "2023-11-10T12:00:00.500000" |}];
       replacements :=
         [Fixture.stamped_event "edge" "young" "2023-11-10T12:00:00.500000"];
       change_inputs := change_inputs Fixture.aged |}.
Proof. vm_compute. reflexivity. Qed.

(** [Fixture.isoformat_utc] on some instants, against what Python
    prints. *)
Example isoformat_utc_samples :
  map Fixture.isoformat_utc
    [0; 1; 951868799999999; 1699395199999999; 1699395200000000;
     1699617600500000; 1700000000000000; 1709164800000000;
     4102444800000000; 253402300799999999; -1]
  = ["1970-01-01T00:00:00"; "1970-01-01T00:00:00.000001";
     "2000-02-29T23:59:59.999999"; "2023-11-07T22:13:19.999999";
     "2023-11-07T22:13:20"; "2023-11-10T12:00:00.500000";
     "2023-11-14T22:13:20"; "2024-02-29T00:00:00"; "2100-01-01T00:00:00";
     "9999-12-31T23:59:59.999999"; "1969-12-31T23:59:59.999999"].
Proof. vm_compute. reflexivity. Qed.

(** ** Poller *)

(** Once the first snapshot is in, no later failure ends the thread. *)
Lemma poller_survives_later_failures (initial : list string)
    (rest : list snapshot) :
  fst (fst (poller_run (Some initial :: rest))) = Waiting.
Proof.
  simpl. now destruct (poll_loop rest initial).
Qed.

(** A failed poll inside the loop emits nothing and keeps the baseline. *)
Lemma poll_loop_skips_failure (rest : list snapshot) (last : list string) :
  poll_loop (None :: rest) last = poll_loop rest last.
Proof. reflexivity. Qed.

(** C7: the first call of [fetch_mempool_full] stands outside the
    [try/except]: when it fails the thread dies at once, whatever the API
    would have answered afterwards, and no event is ever emitted. *)
Theorem poller_dies_on_first_failure (rest : list snapshot) :
  poller_run (None :: rest) = (Died RequestException, [], []).
Proof. reflexivity. Qed.

(** ** Dictionaries *)

Lemma py_eq_text_spec (a b : option string) : py_eq_text a b = true <-> a = b.
Proof.
  destruct a as [x|], b as [y|]; simpl; try (split; congruence).
  rewrite String.eqb_eq. split; congruence.
Qed.

Lemma py_eq_int_spec (a b : option Z) : py_eq_int a b = true <-> a = b.
Proof.
  destruct a as [x|], b as [y|]; simpl; try (split; congruence).
  rewrite Z.eqb_eq. split; congruence.
Qed.

Lemma dict_get_set (k k' : Z) (v : output_info) (d : py_dict) :
  dict_get k (dict_set k' v d) = if Z.eqb k k' then Some v else dict_get k d.
Proof.
  induction d as [|[k0 v0] d IH]; simpl.
  - reflexivity.
  - destruct (Z.eqb k' k0) eqn:E0; simpl.
    + apply Z.eqb_eq in E0. subst k0. now destruct (Z.eqb k k').
    + rewrite IH. destruct (Z.eqb k k0) eqn:E1; [|reflexivity].
      apply Z.eqb_eq in E1. subst k0.
      now rewrite Z.eqb_sym, E0.
Qed.

Lemma dict_get_fold (k : Z) (rows : list Table.tx_output) (d : py_dict) :
  dict_get k
    (fold_left
       (fun d r =>
          dict_set (Table.vout_index r)
            (Table.out_address r, Table.out_value r) d)
       rows d)
  = fold_left
      (fun found r =>
         if Z.eqb k (Table.vout_index r)
         then Some (Table.out_address r, Table.out_value r)
         else found)
      rows (dict_get k d).
Proof.
  revert d. induction rows as [|r rows IH]; intro d; simpl.
  - reflexivity.
  - now rewrite IH, dict_get_set.
Qed.

(** The dictionary the detector builds answers with [output_at]. *)
Lemma dict_get_by_idx (s : store) (txid : string) (idx : Z) :
  dict_get idx (by_idx (select_outputs txid s)) = output_at s txid idx.
Proof. unfold by_idx, output_at. now rewrite dict_get_fold. Qed.

Lemma dict_keys_in (k : Z) (d : py_dict) :
  In k (dict_keys d) <-> dict_get k d <> None.
Proof.
  induction d as [|[k0 v0] d IH]; simpl.
  - split; [tauto | congruence].
  - destruct (Z.eqb k k0) eqn:E0.
    + apply Z.eqb_eq in E0. split; [congruence | auto].
    + apply Z.eqb_neq in E0. rewrite <- IH. split; [|tauto].
      intros [H|H]; [congruence | assumption].
Qed.

Lemma dict_keys_set (k : Z) (v : output_info) (d : py_dict) :
  dict_keys (dict_set k v d)
  = if existsb (Z.eqb k) (dict_keys d) then dict_keys d else dict_keys d ++ [k].
Proof.
  induction d as [|[k0 v0] d IH]; simpl.
  - reflexivity.
  - destruct (Z.eqb k k0) eqn:E0; simpl.
    + reflexivity.
    + fold (dict_keys (dict_set k v d)). rewrite IH.
      now destruct (existsb (Z.eqb k) (dict_keys d)).
Qed.

Lemma NoDup_snoc {A : Type} (l : list A) (a : A) :
  NoDup l -> ~ In a l -> NoDup (l ++ [a]).
Proof.
  intros Hl Ha. induction Hl as [|x l Hx Hl IH]; simpl.
  - constructor; [tauto | constructor].
  - constructor.
    + rewrite in_app_iff. simpl. intros [H|[H|[]]]; [tauto|].
      subst. apply Ha. now left.
    + apply IH. intro H. apply Ha. now right.
Qed.

Lemma dict_keys_fold_NoDup (rows : list Table.tx_output) (d : py_dict) :
  NoDup (dict_keys d) ->
  NoDup (dict_keys
    (fold_left
       (fun d r =>
          dict_set (Table.vout_index r)
            (Table.out_address r, Table.out_value r) d)
       rows d)).
Proof.
  revert d. induction rows as [|r rows IH]; intros d Hd; simpl; [assumption|].
  apply IH. rewrite dict_keys_set.
  destruct (existsb _ (dict_keys d)) eqn:Hex; [assumption|].
  apply NoDup_snoc; [assumption|].
  intro Hin.
  assert (existsb (Z.eqb (Table.vout_index r)) (dict_keys d) = true) as Ht.
  { apply existsb_exists. exists (Table.vout_index r). split; auto.
    apply Z.eqb_refl. }
  congruence.
Qed.

(** A dictionary holds each key once. *)
Lemma by_idx_NoDup (rows : list Table.tx_output) : NoDup (dict_keys (by_idx rows)).
Proof. apply dict_keys_fold_NoDup. constructor. Qed.

Lemma dict_get_In (k : Z) (v : output_info) (d : py_dict) :
  dict_get k d = Some v -> In (k, v) d.
Proof.
  induction d as [|[k0 v0] d IH]; simpl; [discriminate|].
  destruct (Z.eqb k k0) eqn:E0.
  - apply Z.eqb_eq in E0. intro H. left. congruence.
  - auto.
Qed.

Lemma In_dict_get (k : Z) (v : output_info) (d : py_dict) :
  NoDup (dict_keys d) -> In (k, v) d -> dict_get k d = Some v.
Proof.
  induction d as [|[k0 v0] d IH]; simpl; [tauto|].
  intros Hnd [Heq|Hin].
  - inversion Heq; subst. now rewrite Z.eqb_refl.
  - inversion Hnd as [|? ? Hk0 Hd]; subst.
    destruct (Z.eqb k k0) eqn:E0; [|auto].
    apply Z.eqb_eq in E0. subst k0. exfalso. apply Hk0.
    change k with (fst (k, v)). now apply in_map.
Qed.

Lemma same_key_set_spec (d1 d2 : py_dict) :
  same_key_set d1 d2 = true
  <-> forall k, dict_get k d1 = None <-> dict_get k d2 = None.
Proof.
  assert (Hmem : forall k l, existsb (Z.eqb k) l = true <-> In k l).
  { intros k l. rewrite existsb_exists. split.
    - intros (x & Hin & Heq). apply Z.eqb_eq in Heq. now subst.
    - intro Hin. exists k. split; auto. apply Z.eqb_refl. }
  unfold same_key_set. rewrite andb_true_iff, !forallb_forall. split.
  - intros [H12 H21] k. split; intro Hn.
    + destruct (dict_get k d2) eqn:E2; [|reflexivity]. exfalso.
      assert (In k (dict_keys d2)) as Hin by (apply dict_keys_in; congruence).
      apply H21, Hmem, dict_keys_in in Hin. auto.
    + destruct (dict_get k d1) eqn:E1; [|reflexivity]. exfalso.
      assert (In k (dict_keys d1)) as Hin by (apply dict_keys_in; congruence).
      apply H12, Hmem, dict_keys_in in Hin. auto.
  - intro H. split; intros k Hin; apply Hmem, dict_keys_in;
      apply dict_keys_in in Hin; intro Hn; apply Hin; now apply H.
Qed.

(** ** The scan of the detector *)

Lemma collect_diffs_spec (items new_by_idx : py_dict) (acc : list diff_entry) :
  match collect_diffs items new_by_idx acc with
  | ScanDone ds =>
      ds = acc ++ diffs_of items new_by_idx
      /\ forall idx a v, In (idx, (a, v)) items ->
           exists v', dict_get idx new_by_idx = Some (a, v')
  | ScanReturn =>
      exists idx a v a' v',
        In (idx, (a, v)) items
        /\ dict_get idx new_by_idx = Some (a', v') /\ a <> a'
  | ScanKeyError =>
      exists idx, In idx (dict_keys items) /\ dict_get idx new_by_idx = None
  end.
Proof.
  revert acc. induction items as [|[idx [a v]] items IH]; intro acc; simpl.
  - split; [now rewrite app_nil_r | tauto].
  - destruct (dict_get idx new_by_idx) as [[a' v']|] eqn:Hget.
    + destruct (py_eq_text a a') eqn:Ha; simpl.
      * apply py_eq_text_spec in Ha. subst a'.
        destruct (py_eq_int v v') eqn:Hv; simpl.
        -- specialize (IH acc).
           destruct (collect_diffs items new_by_idx acc) as [ds| |].
           ++ destruct IH as [Hds Hall]. split; [assumption|].
              intros j b u [Heq|Hin]; [|eauto].
              inversion Heq; subst. eauto.
           ++ destruct IH as (j & b & u & b' & u' & Hin & H1 & H2).
              exists j, b, u, b', u'. auto.
           ++ destruct IH as (j & Hin & H1). exists j. auto.
        -- specialize (IH (acc ++ [(idx, a, v, v')])).
           destruct (collect_diffs items new_by_idx _) as [ds| |].
           ++ destruct IH as [Hds Hall]. split.
              ** rewrite Hds, <- app_assoc. reflexivity.
              ** intros j b u [Heq|Hin]; [|eauto].
                 inversion Heq; subst. eauto.
           ++ destruct IH as (j & b & u & b' & u' & Hin & H1 & H2).
              exists j, b, u, b', u'. auto.
           ++ destruct IH as (j & Hin & H1). exists j. auto.
      * exists idx, a, v, a', v'. repeat split; auto.
        intro Heq. apply py_eq_text_spec in Heq. congruence.
    + exists idx. auto.
Qed.

Lemma In_diffs_of (items new_by_idx : py_dict) (j : Z) (a : option string)
    (v v' : option Z) :
  In (j, a, v, v') (diffs_of items new_by_idx)
  <-> In (j, (a, v)) items
      /\ (exists a', dict_get j new_by_idx = Some (a', v')) /\ v <> v'.
Proof.
  unfold diffs_of. rewrite in_flat_map. split.
  - intros ([idx [b u]] & Hin & Hx).
    destruct (dict_get idx new_by_idx) as [[b' u']|] eqn:Hget; [|contradiction].
    destruct (py_eq_int u u') eqn:Hu; [contradiction|].
    destruct Hx as [Hx|[]]. inversion Hx; subst.
    repeat split; eauto.
    intro Heq. apply py_eq_int_spec in Heq. congruence.
  - intros (Hin & (a' & Hget) & Hne).
    exists (j, (a, v)). split; [assumption|].
    rewrite Hget.
    destruct (py_eq_int v v') eqn:Hu; [|now left].
    apply py_eq_int_spec in Hu. contradiction.
Qed.




Lemma single_diff_inv (d1 d2 : py_dict) (i : Z) (a : option string)
    (o n : option Z) :
  NoDup (dict_keys d1) ->
  diffs_of d1 d2 = [(i, a, o, n)] ->
  dict_get i d1 = Some (a, o)
  /\ (exists a', dict_get i d2 = Some (a', n))
  /\ o <> n
  /\ forall j b u b' u',
       dict_get j d1 = Some (b, u) -> dict_get j d2 = Some (b', u') ->
       u <> u' -> j = i.
Proof.
  intros Hnd Hd.
  assert (In (i, a, o, n) (diffs_of d1 d2)) as Hin by (rewrite Hd; now left).
  apply In_diffs_of in Hin as (Hin & Hget & Hne).
  repeat split; auto using In_dict_get.
  intros j b u b' u' H1 H2 Hu.
  assert (In (j, b, u, u') (diffs_of d1 d2)) as Hj.
  { apply In_diffs_of. repeat split; eauto using dict_get_In. }
  rewrite Hd in Hj. destruct Hj as [Hj|[]]. congruence.
Qed.

(** ** The replacement detector *)

Section Detector.

Variable E : env.
Variables orig new : string.
Variable w : world.

Let s := db w.
Let d1 := by_idx (select_outputs orig s).
Let d2 := by_idx (select_outputs new s).

Lemma value_differs_dict (j : Z) :
  value_differs s orig new j
  <-> exists b u b' u',
        dict_get j d1 = Some (b, u) /\ dict_get j d2 = Some (b', u')
        /\ u <> u'.
Proof.
  unfold value_differs, d1, d2. now rewrite !dict_get_by_idx.
Qed.

(** C2: on each of the four rejections (index sets differ, an address
    differs at a shared index, not exactly one value differs, the one
    differing value did not shrink) [record_replacement] returns without
    an insert, without a clock read and without an error: the world it
    leaves is the one it found. *)
Theorem rejection_records_nothing :
  rejected (db w) orig new -> record_replacement E orig new w = (Done, w).
Proof.
  intro Hrej. unfold record_replacement.
  fold s. fold d1. fold d2.
  assert (G1 : forall k, dict_get k d1 = output_at s orig k)
    by (intro; apply dict_get_by_idx).
  assert (G2 : forall k, dict_get k d2 = output_at s new k)
    by (intro; apply dict_get_by_idx).
  assert (N1 : NoDup (dict_keys d1)) by apply by_idx_NoDup.
  destruct (same_key_set d1 d2) eqn:Hsame; simpl; [|reflexivity].
  rewrite same_key_set_spec in Hsame.
  pose proof (collect_diffs_spec d1 d2 []) as Hscan.
  destruct (collect_diffs d1 d2 []) as [ds| |]; [|reflexivity|].
  - destruct Hscan as [Hds Hall]. simpl in Hds. subst ds. fold s in Hrej.
    destruct Hrej as [idx Hx|idx a a' v v' H1 H2 Hne|Hnot
                      |idx a a' old_val new_val H1 H2 Huniq Hge].
    + exfalso. rewrite <- !G1, <- !G2 in Hx.
      destruct Hx as [[Ha Hb]|[Ha Hb]];
        [apply Hsame in Hb | apply Hsame in Ha]; contradiction.
    + exfalso. rewrite <- G1 in H1. rewrite <- G2 in H2.
      apply dict_get_In, Hall in H1 as [v'' Hg]. congruence.
    + destruct (diffs_of d1 d2) as [|[[[i a] o] n] [|x l]] eqn:Hd;
        try reflexivity.
      exfalso. apply Hnot.
      apply single_diff_inv in Hd as (Hi1 & (a' & Hi2) & Hne & Hu); auto.
      exists i. split.
      * apply value_differs_dict. exists a, o, a', n. auto.
      * intros j Hj. apply value_differs_dict in Hj
          as (b & u & b' & u' & Hj1 & Hj2 & Hju). eauto.
    + destruct (diffs_of d1 d2) as [|[[[i a0] o] n] [|x l]] eqn:Hd;
        try reflexivity.
      apply single_diff_inv in Hd as (Hi1 & (a0' & Hi2) & Hne & Hu); auto.
      assert (i = idx) as ->.
      { apply Huniq, value_differs_dict. exists a0, o, a0', n. auto. }
      rewrite G1, H1 in Hi1. rewrite G2, H2 in Hi2.
      inversion Hi1; inversion Hi2; subst.
      destruct (Z.geb new_val old_val) eqn:Hg; [reflexivity|].
      rewrite Z.geb_leb in Hg. apply Z.leb_gt in Hg. lia.
  - exfalso. destruct Hscan as (idx & Hin & Hnone).
    apply dict_keys_in in Hin. apply Hin. now apply Hsame.
Qed.

End Detector.

(** ** Distinct input addresses and their mappings *)

Lemma distinct_In (a : option string) (l : list (option string)) :
  In a (distinct l) <-> In a l.
Proof.
  induction l as [|b l IH]; simpl; [tauto|].
  rewrite filter_In, IH. split.
  - intros [H|[H _]]; auto.
  - intros [H|H]; auto.
    destruct (py_eq_text b a) eqn:Hba.
    + left. now apply py_eq_text_spec.
    + right. split; auto.
Qed.


Lemma select_input_addresses_In (s : store) (txid : string)
    (a : option string) :
  In a (select_input_addresses txid s)
  <-> exists r, In r (tx_inputs s) /\ Table.in_txid r = txid
                /\ Table.in_address r = a.
Proof.
  unfold select_input_addresses. rewrite distinct_In, in_map_iff. split.
  - intros (r & Ha & Hin). apply filter_In in Hin as [Hin Heq].
    apply String.eqb_eq in Heq. eauto.
  - intros (r & Hin & Heq & Ha). exists r. split; auto.
    apply filter_In. split; auto. now apply String.eqb_eq.
Qed.



Section Recording.

Variable E : env.
Variables orig new : string.
Variable w : world.
Variable i : Z.
Variable addr : option string.
Variables old_val new_val : Z.

Let s := db w.

Hypothesis same_indices :
  forall idx, output_at s orig idx = None <-> output_at s new idx = None.
Hypothesis same_addresses :
  forall idx a v a' v',
    output_at s orig idx = Some (a, v) ->
    output_at s new idx = Some (a', v') -> a = a'.
Hypothesis old_output : output_at s orig i = Some (addr, Some old_val).
Hypothesis new_output : output_at s new i = Some (addr, Some new_val).
Hypothesis only_i_differs : forall j, value_differs s orig new j -> j = i.
Hypothesis shrinks : new_val < old_val.
Hypothesis fits : old_val - new_val < 2 ^ 63.


End Recording.

(** ** Ingestion *)

Lemma same_ingested_refl (w : world) : same_ingested w w.
Proof. repeat split. Qed.

Lemma same_ingested_trans (w1 w2 w3 : world) :
  same_ingested w1 w2 -> same_ingested w2 w3 -> same_ingested w1 w3.
Proof.
  unfold same_ingested. intros (A1 & A2 & A3 & A4) (B1 & B2 & B3 & B4).
  repeat split; congruence.
Qed.

(** The detector writes to [replacements] and [change_inputs] only. *)
Lemma record_replacement_same_ingested (E : env) (orig new : string)
    (w : world) :
  same_ingested w (snd (record_replacement E orig new w)).
Proof.
  unfold record_replacement.
  destruct (same_key_set _ _); simpl; [|apply same_ingested_refl].
  destruct (collect_diffs _ _ _) as [ds| |]; simpl;
    try apply same_ingested_refl.
  destruct ds as [|[[[ci ca] [o|]] [n|]] [|x l]]; simpl;
    try apply same_ingested_refl.
  destruct (Z.geb n o); simpl; [apply same_ingested_refl|].
  destruct (sqlite_integer (o - n)); simpl; repeat split.
Qed.

Lemma replace_each_same_ingested (E : env) (txid : string)
    (origs : list string) (w : world) :
  same_ingested w (snd (replace_each E txid origs w)).
Proof.
  revert w. induction origs as [|o origs IH]; intro w; simpl.
  - apply same_ingested_refl.
  - destruct (negb (String.eqb o txid)); [|apply IH].
    pose proof (record_replacement_same_ingested E o txid w) as H.
    destruct (record_replacement E o txid w) as [[|e] w1]; simpl in *.
    + eapply same_ingested_trans; [exact H | apply IH].
    + exact H.
Qed.

Lemma detect_replacements_same_ingested (E : env) (txid : string)
    (vins : list Json.Vin.t) (w : world) :
  same_ingested w (snd (detect_replacements E txid vins w)).
Proof.
  revert w. induction vins as [|vin vins IH]; intro w; simpl.
  - apply same_ingested_refl.
  - destruct (Json.Vin.txid vin) as [p|]; simpl; [|apply same_ingested_refl].
    destruct (Json.Vin.vout vin) as [v|]; simpl; [|apply same_ingested_refl].
    pose proof (replace_each_same_ingested E txid
                  (select_spenders p v (db w)) w) as H.
    destruct (replace_each E txid _ w) as [[|e] w1]; simpl in *.
    + eapply same_ingested_trans; [exact H | apply IH].
    + exact H.
Qed.

(** The flag the first loop returns. *)
Lemma insert_inputs_flag (txid : string) (vins : list Json.Vin.t)
    (table : list Table.tx_input) (flag : bool) :
  let '(o, _, flag') := insert_inputs txid vins table flag in
  (flag' = true -> flag = true \/ exists vin, In vin vins /\ signals_rbf vin)
  /\ (o = Done ->
      flag = true \/ (exists vin, In vin vins /\ signals_rbf vin) ->
      flag' = true).
Proof.
  revert table flag. induction vins as [|vin vins IH]; intros table flag; simpl.
  - split; [auto|]. intros _ [H|(vin & [] & _)]. exact H.
  - destruct (Json.Vin.txid vin) as [p|]; [|split; [auto | discriminate]].
    destruct (Json.Vin.vout vin) as [v|]; [|split; [auto | discriminate]].
    match goal with |- context [insert_inputs txid vins ?t ?f] =>
      specialize (IH t f); destruct (insert_inputs txid vins t f) as [[o t'] f']
    end.
    destruct IH as [IH1 IH2].
    destruct (Z.ltb (get_or (Json.Vin.sequence vin) 0) RBF_SEQ_THRESHOLD) eqn:Hlt.
    + apply Z.ltb_lt in Hlt. split.
      * intros _. right. exists vin. split; [now left | exact Hlt].
      * intros Ho _. apply IH2; auto.
    + apply Z.ltb_ge in Hlt. split.
      * intro Hf. destruct (IH1 Hf) as [H|(x & Hx & Hs)]; auto.
        right. exists x. split; [now right | exact Hs].
      * intros Ho [H|(x & [Hx|Hx] & Hs)]; apply IH2; auto.
        -- subst x. unfold signals_rbf in Hs. lia.
        -- right. eauto.
Qed.

(** With both subscripted keys present in every input the first loop ends
    normally and stores each input with its sequence, 0 for an absent key. *)
Lemma insert_inputs_well_formed (txid : string) (vins : list Json.Vin.t)
    (table : list Table.tx_input) (flag : bool) :
  (forall vin, In vin vins ->
     Json.Vin.txid vin <> None /\ Json.Vin.vout vin <> None) ->
  let '(o, table', _) := insert_inputs txid vins table flag in
  o = Done
  /\ (forall r, In r table -> In r table')
  /\ forall vin, In vin vins ->
       exists r, In r table' /\ Table.in_txid r = txid
                 /\ Table.sequence r = get_or (Json.Vin.sequence vin) 0.
Proof.
  revert table flag. induction vins as [|vin vins IH]; intros table flag Hwf; simpl.
  - repeat split; auto. intros vin [].
  - destruct (Hwf vin (or_introl eq_refl)) as [Ht Hv].
    destruct (Json.Vin.txid vin) as [p|]; [|congruence].
    destruct (Json.Vin.vout vin) as [v|]; [|congruence].
    match goal with |- context [insert_inputs txid vins ?t ?f] =>
      specialize (IH t f); destruct (insert_inputs txid vins t f) as [[o t'] f']
    end.
    destruct IH as (Ho & Hkeep & Hrows); [intros x Hx; apply Hwf; now right|].
    split; [exact Ho|]. split.
    + intros r Hr. apply Hkeep, in_or_app. now left.
    + intros x [Hx|Hx]; [|now apply Hrows].
      subst x. eexists. split; [apply Hkeep, in_or_app; right; now left|].
      split; reflexivity.
Qed.

Lemma insert_or_ignore_rbf_member (r : Table.rbf_tx) (table : list Table.rbf_tx) :
  In (Table.rbf_txid r)
    (map Table.rbf_txid (insert_or_ignore rbf_conflict r table)).
Proof.
  unfold insert_or_ignore.
  destruct (existsb (rbf_conflict r) table) eqn:Hex.
  - apply existsb_exists in Hex as (x & Hin & Hc).
    apply String.eqb_eq in Hc. rewrite Hc. now apply in_map.
  - rewrite map_app, in_app_iff. right. now left.
Qed.

Lemma insert_or_ignore_tx_member (r : Table.tx) (table : list Table.tx) :
  has_tx (insert_or_ignore tx_conflict r table) (Table.tx_txid r) = true.
Proof.
  apply has_tx_true. unfold insert_or_ignore.
  destruct (existsb (tx_conflict r) table) eqn:Hex.
  - apply existsb_exists in Hex as (x & Hin & Hc).
    apply String.eqb_eq in Hc. eauto.
  - exists r. split; auto. apply in_or_app. right. now left.
Qed.

Lemma fetch_failure_is_skipped (E : env) (txid : string) (w : world) :
  fetch_tx E txid = None -> process_added_nocommit E txid w = (Done, w).
Proof. intro H. unfold process_added_nocommit. now rewrite H. Qed.

(** The transaction row offered to [tx]. *)
Lemma process_added_tx_table (E : env) (txid : string) (txj : Json.Tx.t)
    (w : world) :
  fetch_tx E txid = Some txj ->
  tx (db (snd (process_added_nocommit E txid w)))
  = insert_or_ignore tx_conflict
      {| Table.tx_txid := txid; Table.fetched_at := now_iso E w;
         Table.fee := get_or (Json.Tx.fee txj) 0;
         Table.vsize := get_or (Json.Tx.vsize txj) 0 |} (tx (db w)).
Proof.
  intro Hf. unfold process_added_nocommit. rewrite Hf. cbn zeta.
  destruct (insert_inputs txid _ _ false) as [[[|e] t'] [|]]; simpl;
    try reflexivity.
  match goal with |- context [detect_replacements E txid ?v ?w0] =>
    destruct (detect_replacements_same_ingested E txid v w0) as (H & _)
  end.
  rewrite H. reflexivity.
Qed.

Section Candidate.

Variable E : env.
Variable txid : string.
Variable txj : Json.Tx.t.
Variable w : world.

Hypothesis fetched : fetch_tx E txid = Some txj.

Lemma quiet_without_low_sequence :
  ~ (exists vin, In vin (get_or (Json.Tx.vin txj) []) /\ signals_rbf vin) ->
  rbf_txs (db (snd (process_added_nocommit E txid w))) = rbf_txs (db w)
  /\ same_detections w (snd (process_added_nocommit E txid w)).
Proof.
  intro Hnone. unfold process_added_nocommit. rewrite fetched. cbn zeta.
  match goal with |- context [insert_inputs txid ?v ?t false] =>
    pose proof (insert_inputs_flag txid v t false) as Hflag;
    destruct (insert_inputs txid v t false) as [[o t'] f']
  end.
  destruct Hflag as [Hflag _].
  destruct f'.
  - exfalso. destruct (Hflag eq_refl) as [H|H]; [discriminate | auto].
  - destruct o; simpl; repeat split.
Qed.

Lemma low_sequence_marks :
  inputs_well_formed txj ->
  (exists vin, In vin (get_or (Json.Tx.vin txj) []) /\ signals_rbf vin) ->
  is_rbf_candidate (db (snd (process_added_nocommit E txid w))) txid.
Proof.
  intros Hwf Hlow. unfold process_added_nocommit. rewrite fetched. cbn zeta.
  match goal with |- context [insert_inputs txid ?v ?t false] =>
    pose proof (insert_inputs_flag txid v t false) as Hflag;
    pose proof (insert_inputs_well_formed txid v t false Hwf) as Hok;
    destruct (insert_inputs txid v t false) as [[o t'] f']
  end.
  destruct Hok as (Ho & _). subst o.
  destruct Hflag as [_ Hflag]. rewrite (Hflag eq_refl (or_intror Hlow)).
  match goal with |- context [detect_replacements E txid ?v ?w0] =>
    destruct (detect_replacements_same_ingested E txid v w0)
      as (_ & _ & _ & H)
  end.
  unfold is_rbf_candidate. rewrite H. simpl.
  apply (insert_or_ignore_rbf_member
           {| Table.rbf_txid := txid; Table.added_at := now_iso E w |}).
Qed.

Lemma candidate_after :
  inputs_well_formed txj ->
  is_rbf_candidate (db (snd (process_added_nocommit E txid w))) txid
  <-> is_rbf_candidate (db w) txid
      \/ exists vin, In vin (get_or (Json.Tx.vin txj) []) /\ signals_rbf vin.
Proof.
  intro Hwf. unfold process_added_nocommit. rewrite fetched. cbn zeta.
  match goal with |- context [insert_inputs txid ?v ?t false] =>
    pose proof (insert_inputs_flag txid v t false) as Hflag;
    pose proof (insert_inputs_well_formed txid v t false Hwf) as Hok;
    destruct (insert_inputs txid v t false) as [[o t'] f']
  end.
  destruct Hok as (Ho & _). subst o. destruct Hflag as [Hon Hoff].
  destruct f'.
  - match goal with |- context [detect_replacements E txid ?v ?w0] =>
      destruct (detect_replacements_same_ingested E txid v w0)
        as (_ & _ & _ & H)
    end.
    split.
    + intros _. right. destruct (Hon eq_refl) as [Hf|Hlow];
        [discriminate | exact Hlow].
    + intros _. unfold is_rbf_candidate. rewrite H. simpl.
      apply (insert_or_ignore_rbf_member
               {| Table.rbf_txid := txid; Table.added_at := now_iso E w |}).
  - simpl. split; [auto|]. intros [H|Hlow]; [exact H|].
    specialize (Hoff eq_refl (or_intror Hlow)). discriminate.
Qed.

(** A stored transaction row is left as it is. *)
Lemma stored_tx_is_kept :
  has_tx (tx (db w)) txid = true ->
  tx (db (snd (process_added_nocommit E txid w))) = tx (db w).
Proof.
  intro Hold. rewrite (process_added_tx_table E txid txj w fetched).
  apply has_tx_true in Hold as (x & Hx & Heq).
  apply (insert_or_ignore_present tx_conflict _ x); auto.
  unfold tx_conflict. simpl. apply String.eqb_eq. auto.
Qed.

(** C5: for a fetched transaction whose input objects all carry the keys
    [txid] and [vout], [process_added_nocommit] makes it an RBF candidate
    when one of its inputs has a sequence below 0xFFFFFFFE, and the
    transaction is a candidate afterwards exactly when it was one before or
    has such an input.  For every fetched transaction, when no input has a
    sequence below 0xFFFFFFFE, [rbf_txs], [replacements] and
    [change_inputs] are left as they were, so nothing is marked and the
    detector records nothing, whatever outpoints the inputs spend; this is
    the case when every sequence is 0xFFFFFFFF. *)
Theorem rbf_candidate_iff_low_sequence :
  let vins := get_or (Json.Tx.vin txj) [] in
  let low :=
    exists vin, In vin vins
                /\ get_or (Json.Vin.sequence vin) 0 < 0xFFFFFFFE in
  let w' := snd (process_added_nocommit E txid w) in
  ((forall vin, In vin vins ->
      Json.Vin.txid vin <> None /\ Json.Vin.vout vin <> None) ->
   (low -> is_rbf_candidate (db w') txid)
   /\ (is_rbf_candidate (db w') txid <-> is_rbf_candidate (db w) txid \/ low))
  /\ (~ low -> rbf_txs (db w') = rbf_txs (db w) /\ same_detections w w')
  /\ ((forall vin, In vin vins -> Json.Vin.sequence vin = Some 0xFFFFFFFF) ->
      rbf_txs (db w') = rbf_txs (db w) /\ same_detections w w').
Proof.
  cbn zeta.
  split; [intro Hwf; split;
          [exact (low_sequence_marks Hwf) | exact (candidate_after Hwf)]|].
  split; [exact quiet_without_low_sequence|].
  intro Hfinal. apply quiet_without_low_sequence. intros (vin & Hin & Hs).
  unfold signals_rbf in Hs. rewrite (Hfinal vin Hin) in Hs.
  simpl in Hs. unfold RBF_SEQ_THRESHOLD in Hs. lia.
Qed.

(** C10: for a fetched transaction whose input objects all carry the keys
    [txid] and [vout], an input without the key [sequence] is stored with
    sequence 0 and makes the transaction an RBF candidate; and when no row
    of the txid is stored yet, the row stored for it carries fee 0 when the
    key [fee] is absent and vsize 0 when the key [vsize] is absent, while a
    row stored before is left as it is. *)
Theorem absent_keys_default_to_zero :
  let vins := get_or (Json.Tx.vin txj) [] in
  let w' := snd (process_added_nocommit E txid w) in
  ((forall vin, In vin vins ->
      Json.Vin.txid vin <> None /\ Json.Vin.vout vin <> None) ->
   (exists vin, In vin vins /\ Json.Vin.sequence vin = None) ->
   is_rbf_candidate (db w') txid
   /\ exists r, In r (tx_inputs (db w')) /\ Table.in_txid r = txid
                /\ Table.sequence r = 0)
  /\ (has_tx (tx (db w)) txid = false ->
      exists r, In r (tx (db w')) /\ Table.tx_txid r = txid
                /\ Table.fetched_at r = isoformat E (utcnow E (ticks w))
                /\ (Json.Tx.fee txj = None -> Table.fee r = 0)
                /\ (Json.Tx.vsize txj = None -> Table.vsize r = 0)
                /\ forall r', In r' (tx (db w')) -> Table.tx_txid r' = txid ->
                     r' = r)
  /\ (has_tx (tx (db w)) txid = true -> tx (db w') = tx (db w)).
Proof.
  cbn zeta. split; [|split; [|exact stored_tx_is_kept]].
  - intros Hwf (vin & Hin & Hseq). split.
    + apply low_sequence_marks; auto.
      exists vin. split; auto. unfold signals_rbf. rewrite Hseq. reflexivity.
    + unfold process_added_nocommit. rewrite fetched. cbn zeta.
      match goal with |- context [insert_inputs txid ?v ?t false] =>
        pose proof (insert_inputs_well_formed txid v t false Hwf) as Hok;
        destruct (insert_inputs txid v t false) as [[o t'] f']
      end.
      destruct Hok as (Ho & _ & Hrows). subst o.
      destruct (Hrows vin Hin) as (r & Hr & Ht & Hs).
      rewrite Hseq in Hs. simpl in Hs.
      exists r. split; [|auto].
      destruct f'; simpl; [|exact Hr].
      match goal with |- context [detect_replacements E txid ?v ?w0] =>
        destruct (detect_replacements_same_ingested E txid v w0)
          as (_ & H & _)
      end.
      rewrite H. exact Hr.
  - intro Hnew. rewrite (process_added_tx_table E txid txj w fetched).
    assert (Hfree : forall x, In x (tx (db w)) -> Table.tx_txid x <> txid).
    { intros x Hx Heq.
      assert (has_tx (tx (db w)) txid = true) as Ht
        by (apply has_tx_true; eauto).
      congruence. }
    rewrite insert_or_ignore_fresh.
    + eexists. split; [apply in_or_app; right; now left|].
      simpl. split; [reflexivity|]. split; [reflexivity|].
      split; [intros ->; reflexivity|]. split; [intros ->; reflexivity|].
      intros r' Hr' Heq. apply in_app_or in Hr' as [Hr'|[<-|[]]];
        [now destruct (Hfree r' Hr') | reflexivity].
    + intros x Hx. unfold tx_conflict. simpl.
      apply String.eqb_neq. intro Heq. now apply (Hfree x Hx).
Qed.

End Candidate.

(** ** Batch Worker *)

Lemma process_added_keeps_tx (E : env) (txid t : string) (w : world) :
  has_tx (tx (db w)) t = true ->
  has_tx (tx (db (snd (process_added_nocommit E txid w)))) t = true.
Proof.
  intro H. destruct (fetch_tx E txid) as [txj|] eqn:Hf.
  - rewrite (process_added_tx_table E txid txj w Hf).
    apply has_tx_true in H as (r & Hin & Heq).
    apply has_tx_true. exists r. split; auto.
    now apply insert_or_ignore_keeps.
  - now rewrite fetch_failure_is_skipped.
Qed.

Lemma process_added_stores_tx (E : env) (txid : string) (w : world) :
  fetch_tx E txid <> None ->
  has_tx (tx (db (snd (process_added_nocommit E txid w)))) txid = true.
Proof.
  intro H. destruct (fetch_tx E txid) as [txj|] eqn:Hf; [|congruence].
  rewrite (process_added_tx_table E txid txj w Hf).
  apply (insert_or_ignore_tx_member
           {| Table.tx_txid := txid; Table.fetched_at := now_iso E w;
              Table.fee := get_or (Json.Tx.fee txj) 0;
              Table.vsize := get_or (Json.Tx.vsize txj) 0 |}).
Qed.

Lemma process_all_keeps_tx (E : env) (txids : list string) (t : string)
    (w : world) :
  has_tx (tx (db w)) t = true ->
  has_tx (tx (db (snd (process_all E txids w)))) t = true.
Proof.
  revert w. induction txids as [|txid txids IH]; intros w H; simpl; [exact H|].
  pose proof (process_added_keeps_tx E txid t w H) as H1.
  destruct (process_added_nocommit E txid w) as [[|e] w1]; simpl in *; auto.
Qed.

(** A flush that raises nothing has stored every transaction it could
    fetch. *)
Lemma process_all_stores_tx (E : env) (txids : list string) (w : world) :
  fst (process_all E txids w) = Done ->
  forall txid, In txid txids -> fetch_tx E txid <> None ->
    has_tx (tx (db (snd (process_all E txids w)))) txid = true.
Proof.
  revert w. induction txids as [|t txids IH]; intros w Hdone txid Hin Hf;
    simpl in *; [contradiction|].
  pose proof (process_added_stores_tx E t w) as Hst.
  destruct (process_added_nocommit E t w) as [[|e] w1]; simpl in *;
    [|discriminate].
  destruct Hin as [->|Hin]; [|now apply IH].
  apply process_all_keeps_tx. auto.
Qed.

(** The loop over the buffer ends at the first exception. *)
Lemma process_all_stops_at_raise (E : env) (t : string) (rest : list string)
    (w w1 : world) (e : exn) :
  process_added_nocommit E t w = (Raised e, w1) ->
  process_all E (t :: rest) w = (Raised e, w1).
Proof. intro H. simpl. now rewrite H. Qed.

(** An input object without the key [txid] raises KeyError. *)
Lemma missing_txid_raises (E : env) (txid : string) (txj : Json.Tx.t)
    (vin : Json.Vin.t) (rest : list Json.Vin.t) (w : world) :
  fetch_tx E txid = Some txj ->
  Json.Tx.vin txj = Some (vin :: rest) ->
  Json.Vin.txid vin = None ->
  fst (process_added_nocommit E txid w) = Raised (KeyError "txid").
Proof.
  intros Hf Hv Ht. unfold process_added_nocommit.
  rewrite Hf, Hv. simpl. rewrite Ht. reflexivity.
Qed.

(** Events consumed without an exception and without a stop leave the loop
    where it would be had they come alone. *)
Lemma run_loop_app (E : env) (pre rest : list event) (b b1 : worker) :
  run_loop E pre b = (Starved, b1) ->
  run_loop E (pre ++ rest) b = run_loop E rest b1.
Proof.
  revert b. induction pre as [|ev pre IH]; intros b H; simpl in *.
  - now inversion H.
  - destruct ev as [txid| | |tag]; try (now apply IH); [|discriminate].
    destruct (Nat.leb _ _); [|now apply IH].
    destruct (flush_batch E _) as [[|e] b2]; [now apply IH | discriminate].
Qed.

(** ** The stop event *)

(** Let the worker have consumed the events [pre] and stand in state [b]
    when the stop event arrives.  When processing the txids buffered in [b]
    raises nothing, the worker processes every one of them in order, clears
    the buffer, commits what the connection holds, closes it and
    terminates; every buffered txid the API knows then has its row in the
    committed [tx] table. *)
Lemma stop_flushes_a_clean_buffer (E : env) (pre rest : list event)
    (b0 b : worker) :
  run_loop E pre b0 = (Starved, b) ->
  fst (process_all E (buffer b) (live (conn b))) = Done ->
  let r := run E (pre ++ Stop :: rest) b0 in
  let b' := snd r in
  fst r = Terminated
  /\ buffer b' = []
  /\ live (conn b') = snd (process_all E (buffer b) (live (conn b)))
  /\ committed (conn b') = db (live (conn b'))
  /\ closed (conn b') = true
  /\ forall txid, In txid (buffer b) -> fetch_tx E txid <> None ->
       has_tx (tx (committed (conn b'))) txid = true.
Proof.
  intros Hpre Hdone. cbn zeta.
  pose proof (process_all_stores_tx E (buffer b) (live (conn b)) Hdone) as Hst.
  unfold run. rewrite (run_loop_app E pre (Stop :: rest) b0 b Hpre).
  simpl run_loop. cbv iota. unfold finally_clause, flush_batch.
  clear Hpre. destruct b as [buf c size]. simpl in *.
  destruct buf as [|t buf].
  - simpl. repeat split; auto; intros txid [].
  - destruct (process_all E (t :: buf) (live c)) as [[|e] w']; simpl in *;
      [|discriminate].
    repeat split; auto.
Qed.

(** C9: a stop event does not save the buffer from a transaction that
    cannot be processed.  With "good" and then "bad", whose input lacks the
    key [txid], in the buffer when the stop event arrives, the flush raises
    KeyError at "bad", the [finally] clause flushes again and raises again:
    the thread dies with both txids still buffered, the rows of "good" on
    the connection but nothing committed, and the connection left open. *)
Theorem stop_drops_buffer_with_malformed_transaction :
  let r := run Sample.E [Added "good"; Added "bad"; Stop] (new_worker 200) in
  fst r = Died (KeyError "txid")
  /\ buffer (snd r) = ["good"; "bad"]
  /\ has_tx (tx (db (live (conn (snd r))))) "good" = true
  /\ has_tx (tx (committed (conn (snd r)))) "good" = false
  /\ committed (conn (snd r)) = empty_store
  /\ closed (conn (snd r)) = false.
Proof. vm_compute. repeat split. Qed.

(** C8: a transaction that cannot be processed is not isolated.  With
    the buffer holding "bad", whose input lacks the key [txid], and then
    "good", the flush raises KeyError at "bad"; the [finally] clause flushes
    again and raises again; the thread dies with "good" never processed,
    nothing committed and the connection left open. *)
Theorem malformed_transaction_kills_worker :
  let r := run Sample.E [Added "bad"; Added "good"; Stop] (new_worker 2) in
  fst r = Died (KeyError "txid")
  /\ buffer (snd r) = ["bad"; "good"]
  /\ has_tx (tx (db (live (conn (snd r))))) "good" = false
  /\ committed (conn (snd r)) = empty_store
  /\ closed (conn (snd r)) = false.
Proof. vm_compute. repeat split. Qed.

(** C6: a txid that leaves the mempool and comes back is emitted twice by
    the Poller, and processing it twice stores its output 0 twice. *)
Theorem reprocessed_txid_duplicates_outputs :
  let polled := poller_run [Some ["good"]; Some []; Some ["good"]] in
  let events := snd (fst polled) in
  let b := snd (run Sample.E (events ++ [Stop]) (new_worker 200)) in
  events = [Added "good"; Added "good"]
  /\ outputs_of "good" 0 (tx_outputs (committed (conn b)))
     = [Sample.out "good" 0 "C" 700; Sample.out "good" 0 "C" 700].
Proof. vm_compute. split; reflexivity. Qed.

(** ** The scenarios of the specification *)

Lemma sample_value_differs_only_at_1 (v : Z) (j : Z) :
  value_differs
    (Sample.with_outputs [Sample.out "new" 0 "A" 1000; Sample.out "new" 1 "B" v])
    "orig" "new" j ->
  j = 1.
Proof.
  unfold value_differs, output_at. simpl.
  intros (a & u & a' & u' & H1 & H2 & Hne).
  destruct (Z.eqb j 1) eqn:E1; [now apply Z.eqb_eq|].
  destruct (Z.eqb j 0); congruence.
Qed.



(** Scenario C (the value grew) and scenario B (two values differ). *)
Lemma rejection_records_nothing_witness :
  record_replacement Sample.E "orig" "new"
    {| db := Sample.scenario_C; ticks := 0 |}
  = (Done, {| db := Sample.scenario_C; ticks := 0 |})
  /\ record_replacement Sample.E "orig" "new"
       {| db := Sample.scenario_B; ticks := 0 |}
     = (Done, {| db := Sample.scenario_B; ticks := 0 |}).
Proof.
  split; apply rejection_records_nothing.
  - apply (not_a_shrink _ _ _ 1 (Some "B") (Some "B") 500 520).
    + reflexivity.
    + reflexivity.
    + apply sample_value_differs_only_at_1.
    + simpl. lia.
  - apply not_exactly_one_differs. simpl. intros (idx & _ & Huniq).
    assert (0 = idx) as H0.
    { apply Huniq. exists (Some "A"), (Some 1000), (Some "A"), (Some 900).
      repeat split; discriminate. }
    assert (1 = idx) as H1.
    { apply Huniq. exists (Some "B"), (Some 500), (Some "B"), (Some 480).
      repeat split; discriminate. }
    lia.
Defined.

(** Scenario D: "final", every sequence 0xFFFFFFFF, spends the outpoints of
    the stored candidate "orig" and changes nothing but the ingested rows. *)
Lemma rbf_candidate_iff_low_sequence_witness :
  let w0 := snd (process_added_nocommit Sample.E "orig" Sample.fresh) in
  let w' := snd (process_added_nocommit Sample.E "final" w0) in
  is_rbf_candidate (db w0) "orig"
  /\ rbf_txs (db w') = rbf_txs (db w0) /\ same_detections w0 w'
  /\ ~ is_rbf_candidate (db w') "final".
Proof.
  cbn zeta.
  assert (Hfinal : forall vin,
            In vin (get_or (Json.Tx.vin Sample.final_tx) []) ->
            Json.Vin.sequence vin = Some 0xFFFFFFFF)
    by (intros vin [<-|[<-|[]]]; reflexivity).
  destruct (rbf_candidate_iff_low_sequence Sample.E "orig" Sample.orig_tx
              Sample.fresh eq_refl) as (Hwf & _ & _).
  destruct Hwf as [Hmark _];
    [intros vin [<-|[<-|[]]]; split; discriminate|].
  destruct (rbf_candidate_iff_low_sequence Sample.E "final" Sample.final_tx
              (snd (process_added_nocommit Sample.E "orig" Sample.fresh))
              eq_refl) as (Hwf & _ & Hall).
  destruct Hwf as [_ Hiff];
    [intros vin [<-|[<-|[]]]; split; discriminate|].
  destruct (Hall Hfinal) as [Hrbf Hdet].
  split; [|split; [exact Hrbf | split; [exact Hdet|]]].
  - apply Hmark. eexists. split; [left; reflexivity|]. reflexivity.
  - intro Hc. apply Hiff in Hc. destruct Hc as [Hc|(vin & Hin & Hlow)].
    + vm_compute in Hc. destruct Hc as [Hc|[]]. discriminate.
    + rewrite (Hfinal vin Hin) in Hlow. simpl in Hlow. lia.
Defined.

(** "half" has an input with sequence 0, below the threshold, and a second
    input object without the key [vout]: the subscript raises before the
    transaction is marked, and it is no candidate afterwards. *)
Lemma rbf_candidate_iff_low_sequence_counterexample :
  let r := process_added_nocommit Fixture.malformed "half" Sample.fresh in
  fetch_tx Fixture.malformed "half" = Some Fixture.half_tx
  /\ (exists vin, In vin (get_or (Json.Tx.vin Fixture.half_tx) [])
                  /\ Json.Vin.sequence vin = Some 0 /\ 0 < 0xFFFFFFFE)
  /\ fst r = Raised (KeyError "vout")
  /\ rbf_txs (db (snd r)) = []
  /\ ~ is_rbf_candidate (db (snd r)) "half".
Proof.
  cbn zeta. split; [reflexivity|]. split.
  - eexists. split; [left; reflexivity|]. split; [reflexivity | lia].
  - vm_compute. repeat split. intros [].
Qed.

Lemma absent_keys_default_to_zero_witness :
  let w' := snd (process_added_nocommit Sample.E "bare" Sample.fresh) in
  is_rbf_candidate (db w') "bare"
  /\ (exists r, In r (tx_inputs (db w')) /\ Table.in_txid r = "bare"
                /\ Table.sequence r = 0)
  /\ (exists r, In r (tx (db w')) /\ Table.tx_txid r = "bare"
                /\ Table.fee r = 0 /\ Table.vsize r = 0)
  /\ tx (db (snd (process_added_nocommit Sample.E "bare" Fixture.stored_bare)))
     = tx (db Fixture.stored_bare).
Proof.
  cbn zeta.
  destruct (absent_keys_default_to_zero Sample.E "bare" Sample.bare_tx
              Sample.fresh eq_refl) as (Hseq & Hfee & _).
  destruct (absent_keys_default_to_zero Sample.E "bare" Sample.bare_tx
              Fixture.stored_bare eq_refl) as (_ & _ & Hkept).
  destruct Hseq as [Hc Hrow].
  - intros vin [<-|[]]; split; discriminate.
  - eexists. split; [left; reflexivity|]. reflexivity.
  - destruct (Hfee eq_refl) as (r & Hin & Ht & _ & Hf & Hv & _).
    split; [exact Hc|]. split; [exact Hrow|]. split.
    + exists r. repeat split; auto.
    + apply Hkept. reflexivity.
Defined.

(** "keyless" has an input object without the key [sequence], which also
    lacks the key [txid]: the subscript raises and the transaction is no
    candidate.  "bare" lacks the keys [fee] and [vsize], and a row of it is
    stored already, with fee 300 and vsize 140: the row stays, and no row
    with fee 0 or vsize 0 is stored. *)
Lemma absent_keys_default_to_zero_counterexample :
  let r := process_added_nocommit Fixture.malformed "keyless" Sample.fresh in
  let r' := process_added_nocommit Sample.E "bare" Fixture.stored_bare in
  (fetch_tx Fixture.malformed "keyless" = Some Fixture.keyless_tx
   /\ (exists vin, In vin (get_or (Json.Tx.vin Fixture.keyless_tx) [])
                   /\ Json.Vin.sequence vin = None)
   /\ fst r = Raised (KeyError "txid")
   /\ ~ is_rbf_candidate (db (snd r)) "keyless")
  /\ (fetch_tx Sample.E "bare" = Some Sample.bare_tx
      /\ Json.Tx.fee Sample.bare_tx = None
      /\ Json.Tx.vsize Sample.bare_tx = None
      /\ fst r' = Done
      /\ tx (db (snd r'))
         = [{| Table.tx_txid := "bare";
               Table.fetched_at := "2023-11-14T22:00:00";
               Table.fee := 300; Table.vsize := 140 |}]).
Proof.
  cbn zeta. split.
  - split; [reflexivity|]. split.
    + eexists. split; [left; reflexivity|]. reflexivity.
    + vm_compute. repeat split. intros [].
  - vm_compute. repeat split.
Qed.

Example stop_flushes_a_clean_buffer_example :
  let r := run Sample.E [Added "orig"; Added "new"; Stop; Added "good"]
             (new_worker 200) in
  fst r = Terminated
  /\ buffer (snd r) = []
  /\ closed (conn (snd r)) = true
  /\ has_tx (tx (committed (conn (snd r)))) "orig" = true
  /\ has_tx (tx (committed (conn (snd r)))) "new" = true.
Proof.
  cbn zeta.
  destruct (stop_flushes_a_clean_buffer Sample.E [Added "orig"; Added "new"]
              [Added "good"] (new_worker 200)
              (with_buffer (new_worker 200) ["orig"; "new"]))
    as (Ht & Hb & _ & _ & Hc & Hst).
  - reflexivity.
  - vm_compute. reflexivity.
  - repeat split; auto; apply Hst; simpl; auto; discriminate.
Qed.

(** Scenario A evaluated: one event for B at index 1 with diff 20, and one
    mapping for each of the two distinct input addresses X and Y. *)
Example scenario_A_recorded :
  let w' := snd (record_replacement Sample.E "orig" "new"
                   {| db := Sample.scenario_A; ticks := 0 |}) in
  map (fun r => (Table.change_address r, Table.change_vout_index r,
                 Table.old_value r, Table.new_value r, Table.diff r))
      (replacements (db w'))
  = [(Some "B", 1, 500, 480, 20)]
  /\ map Table.input_address (change_inputs (db w')) = [Some "X"; Some "Y"].
Proof. vm_compute. split; reflexivity. Qed.

(** A fetch that fails inside a flush is skipped and the flush goes on. *)
Example unknown_txid_is_skipped :
  let r := run Sample.E [Added "gone"; Added "good"; Stop] (new_worker 2) in
  fst r = Terminated
  /\ has_tx (tx (committed (conn (snd r)))) "good" = true.
Proof. vm_compute. split; reflexivity. Qed.

(** * Further properties *)

(** ** The detector, case by case *)

(** What a call of the detector can do: nothing; raise TypeError over a
    NULL value at a differing index, having written nothing; raise
    OverflowError over a shrink by 2^63 or more, having read the clock and
    written nothing; or record the one shrink. *)
Lemma record_replacement_cases (E : env) (orig new : string) (w : world) :
  record_replacement E orig new w = (Done, w)
  \/ (record_replacement E orig new w = (Raised TypeError, w)
      /\ exists i a v a' v',
           output_at (db w) orig i = Some (a, v)
           /\ output_at (db w) new i = Some (a', v')
           /\ v <> v' /\ (v = None \/ v' = None))
  \/ (exists i addr o n,
        shrink_at (db w) orig new i addr o n
        /\ 2 ^ 63 <= o - n
        /\ record_replacement E orig new w
           = (Raised OverflowError, tick w (db w)))
  \/ exists i addr o n,
       shrink_at (db w) orig new i addr o n
       /\ o - n < 2 ^ 63
       /\ record_replacement E orig new w
          = (Done, tick w (with_event orig new addr i o n (now_iso E w) (db w))).
Proof.
  unfold record_replacement.
  set (s := db w).
  set (d1 := by_idx (select_outputs orig s)).
  set (d2 := by_idx (select_outputs new s)).
  assert (G1 : forall k, dict_get k d1 = output_at s orig k)
    by (intro; apply dict_get_by_idx).
  assert (G2 : forall k, dict_get k d2 = output_at s new k)
    by (intro; apply dict_get_by_idx).
  assert (N1 : NoDup (dict_keys d1)) by apply by_idx_NoDup.
  destruct (same_key_set d1 d2) eqn:Hsame; simpl; [|now left].
  rewrite same_key_set_spec in Hsame.
  pose proof (collect_diffs_spec d1 d2 []) as Hscan.
  destruct (collect_diffs d1 d2 []) as [ds| |]; [|now left|].
  - destruct Hscan as [Hds Hall]. simpl in Hds. subst ds.
    destruct (diffs_of d1 d2) as [|[[[i a] o] n] [|x l]] eqn:Hd;
      try (now left).
    apply single_diff_inv in Hd as (Hi1 & (a' & Hi2) & Hne & Hu); auto.
    assert (a' = a) as ->.
    { apply dict_get_In, Hall in Hi1 as [v' Hg]. congruence. }
    rewrite G1 in Hi1. rewrite G2 in Hi2.
    destruct o as [o|], n as [n|];
      try (right; left; split; [reflexivity|];
           exists i, a; eauto 10).
    destruct (Z.geb n o) eqn:Hge; [now left|].
    rewrite Z.geb_leb in Hge. apply Z.leb_gt in Hge.
    assert (Hshrink : shrink_at s orig new i a o n).
    { repeat split; auto.
      + rewrite <- G1, <- G2. apply Hsame.
      + rewrite <- G1, <- G2. apply Hsame.
      + intros idx b v b' v' H1 H2. rewrite <- G1 in H1. rewrite <- G2 in H2.
        apply dict_get_In, Hall in H1 as [v'' Hg]. congruence.
      + intros j (b & u & b' & u' & H1 & H2 & Hju).
        rewrite <- G1 in H1. rewrite <- G2 in H2. eauto. }
    right. right.
    destruct (sqlite_integer (o - n)) eqn:Hfit; cbn [negb].
    + right. exists i, a, o, n. split; [exact Hshrink|].
      split; [|reflexivity].
      unfold sqlite_integer in Hfit. apply andb_true_iff in Hfit as [_ Hfit].
      now apply Z.ltb_lt.
    + left. exists i, a, o, n. split; [exact Hshrink|].
      split; [|reflexivity].
      unfold sqlite_integer in Hfit. apply andb_false_iff in Hfit as [Hfit|Hfit].
      * apply Z.leb_gt in Hfit. lia.
      * now apply Z.ltb_ge.
  - exfalso. destruct Hscan as (idx & Hin & Hnone).
    apply dict_keys_in in Hin. apply Hin. now apply Hsame.
Qed.

Lemma tick_neq (w : world) (s : store) : tick w s <> w.
Proof.
  intro H. apply (f_equal ticks) in H. simpl in H.
  apply (n_Sn (ticks w)). now symmetry.
Qed.

(** X1: whenever the detector changes anything, the two transactions have
    outputs at the same indices with the same addresses, and exactly one
    value differs, which shrinks. *)
Theorem recorded_only_on_shrink (E : env) (orig new : string) (w : world) :
  snd (record_replacement E orig new w) <> w ->
  exists i addr o n, shrink_at (db w) orig new i addr o n.
Proof.
  intro Hch.
  destruct (record_replacement_cases E orig new w)
    as [H|[[H _]|[(i & a & o & n & Hs & _)|(i & a & o & n & Hs & _)]]];
    try (rewrite H in Hch; now contradiction Hch); eauto.
Qed.


(** Both exceptions on stored samples: a NULL value, and a shrink by 2^63. *)
Example detector_exceptions_example :
  record_replacement Sample.E "orig" "new"
    {| db := Fixture.null_value; ticks := 0 |}
  = (Raised TypeError, {| db := Fixture.null_value; ticks := 0 |})
  /\ record_replacement Sample.E "orig" "new"
       {| db := Fixture.overflow; ticks := 0 |}
     = (Raised OverflowError, {| db := Fixture.overflow; ticks := 1 |}).
Proof. split; vm_compute; reflexivity. Qed.

(** X3: a replacement is detected in one direction only: when the call
    for (orig, new) records, the call for (new, orig) on the same store
    records nothing. *)
Theorem detection_is_one_way (E : env) (orig new : string) (w : world) :
  snd (record_replacement E orig new w) <> w ->
  record_replacement E new orig w = (Done, w).
Proof.
  intro Hch.
  assert (Hshrink : exists i a o n, shrink_at (db w) orig new i a o n).
  { destruct (record_replacement_cases E orig new w)
      as [H|[[H _]|[(i & a & o & n & Hs & _)|(i & a & o & n & Hs & _)]]];
      try (rewrite H in Hch; now contradiction Hch); eauto. }
  destruct Hshrink as (i & a & o & n & Hsame & Haddr & Ho & Hn & Hone & Hlt).
  assert (Hback : forall j b o' n', ~ shrink_at (db w) new orig j b o' n').
  { intros j b o' n' (_ & _ & Ho' & Hn' & _ & Hlt').
    assert (j = i) as ->.
    { apply Hone. exists b, (Some n'), b, (Some o'). repeat split; auto.
      intro Heq. inversion Heq. lia. }
    rewrite Hn in Ho'. rewrite Ho in Hn'.
    inversion Ho'; inversion Hn'; subst. lia. }
  destruct (record_replacement_cases E new orig w)
    as [H|[[_ H]|[(j & b & o' & n' & Hs & _)|(j & b & o' & n' & Hs & _)]]];
    [exact H| | |]; exfalso; try (now apply (Hback j b o' n')).
  destruct H as (j & b & v & b' & v' & H1 & H2 & Hne & Hnull).
  assert (j = i) as ->.
  { apply Hone. exists b', v', b, v. repeat split; auto. }
  rewrite Hn in H1. rewrite Ho in H2.
  destruct Hnull; congruence.
Qed.

(** ** What the detector adds *)

Lemma insert_or_ignore_rows {R : Type} (conflict : R -> R -> bool) (r x : R)
    (table : list R) :
  In x (insert_or_ignore conflict r table) -> In x table \/ x = r.
Proof.
  unfold insert_or_ignore. destruct (existsb _ table); auto.
  intro H. apply in_app_or in H as [H|[H|[]]]; auto.
Qed.

(** After INSERT OR IGNORE the row itself or a row in conflict with it is
    stored. *)
Lemma insert_or_ignore_covers {R : Type} (conflict : R -> R -> bool) (r : R)
    (table : list R) :
  In r (insert_or_ignore conflict r table)
  \/ exists x, In x table /\ conflict r x = true.
Proof.
  unfold insert_or_ignore. destruct (existsb (conflict r) table) eqn:Hex.
  - right. apply existsb_exists in Hex. exact Hex.
  - left. apply in_or_app. right. now left.
Qed.

Lemma insert_change_inputs_keeps (orig new : string) (addr : option string)
    (idx : Z) (ts : string) (inputs : list (option string))
    (table : list Table.change_input) (x : Table.change_input) :
  In x table -> In x (insert_change_inputs orig new addr idx ts inputs table).
Proof.
  unfold insert_change_inputs. revert table.
  induction inputs as [|a inputs IH]; intros table H; simpl; [exact H|].
  apply IH. now apply insert_or_ignore_keeps.
Qed.

Lemma insert_change_inputs_rows (orig new : string) (addr : option string)
    (idx : Z) (ts : string) (inputs : list (option string))
    (table : list Table.change_input) (x : Table.change_input) :
  In x (insert_change_inputs orig new addr idx ts inputs table) ->
  In x table
  \/ exists inp, In inp inputs /\ x = change_input_row orig new addr idx ts inp.
Proof.
  unfold insert_change_inputs. revert table.
  induction inputs as [|a inputs IH]; intros table H; simpl in *; [now left|].
  apply IH in H as [H|(inp & Hin & Hx)]; [|right; eauto].
  apply insert_or_ignore_rows in H as [H|H]; [now left|].
  right. exists a. auto.
Qed.

Lemma grows_refl (s : store) : grows s s.
Proof. repeat split; apply incl_refl. Qed.

Lemma grows_trans (s1 s2 s3 : store) : grows s1 s2 -> grows s2 s3 -> grows s1 s3.
Proof.
  intros (A1 & A2 & A3 & A4 & A5 & A6) (B1 & B2 & B3 & B4 & B5 & B6).
  repeat split; eapply incl_tran; eauto.
Qed.

Lemma record_replacement_grows (E : env) (orig new : string) (w : world) :
  grows (db w) (db (snd (record_replacement E orig new w))).
Proof.
  destruct (record_replacement_cases E orig new w)
    as [H|[[H _]|[(i & a & o & n & _ & _ & H)|(i & a & o & n & _ & _ & H)]]];
    rewrite H; simpl; try apply grows_refl.
  repeat split; try apply incl_refl; intros x Hx; simpl.
  - now apply insert_or_ignore_keeps.
  - now apply insert_change_inputs_keeps.
Qed.

(** X4: the detector never touches [tx], [tx_inputs], [tx_outputs] or
    [rbf_txs], and never removes or alters a stored event or mapping:
    whatever it returns, every row of [replacements] and [change_inputs]
    is still there. *)
Theorem detector_only_adds (E : env) (orig new : string) (w : world) :
  let w' := snd (record_replacement E orig new w) in
  same_ingested w w' /\ grows (db w) (db w').
Proof.
  split; [apply record_replacement_same_ingested | apply record_replacement_grows].
Qed.

Lemma events_are_shrinks_step (E : env) (orig new : string) (w : world) :
  events_are_shrinks (db w) ->
  events_are_shrinks (db (snd (record_replacement E orig new w))).
Proof.
  intro Hinv.
  destruct (record_replacement_cases E orig new w)
    as [H|[[H _]|[(i & a & o & n & Hs & _ & H)|(i & a & o & n & Hs & _ & H)]]];
    rewrite H; simpl; auto.
  intros r Hr. simpl in Hr.
  apply insert_or_ignore_rows in Hr as [Hr| ->]; [now apply Hinv|].
  destruct Hs as (_ & _ & Ho & Hn & _ & Hlt). simpl.
  repeat split; auto.
  intros ->. rewrite Ho in Hn. inversion Hn. lia.
Qed.

Lemma mappings_have_events_step (E : env) (orig new : string) (w : world) :
  mappings_have_events (db w) ->
  mappings_have_events (db (snd (record_replacement E orig new w))).
Proof.
  intro Hinv.
  destruct (record_replacement_cases E orig new w)
    as [H|[[H _]|[(i & a & o & n & Hs & _ & H)|(i & a & o & n & Hs & _ & H)]]];
    rewrite H; simpl; auto.
  intros m Hm. simpl in Hm.
  apply insert_change_inputs_rows in Hm as [Hm|(inp & _ & ->)].
  - destruct (Hinv m Hm) as (r & Hr & Hk). exists r. split; [|exact Hk].
    simpl. now apply insert_or_ignore_keeps.
  - simpl.
    destruct (insert_or_ignore_covers replacement_conflict
                (replacement_row orig new a i o n (now_iso E w))
                (replacements (db w))) as [Hr|(x & Hx & Hc)].
    + eexists. split; [exact Hr|]. repeat split.
    + exists x. split; [now apply insert_or_ignore_keeps|].
      unfold replacement_conflict in Hc. simpl in Hc.
      apply andb_true_iff in Hc as [Hc H4].
      apply andb_true_iff in Hc as [Hc H3].
      apply andb_true_iff in Hc as [H1 H2].
      apply String.eqb_eq in H1, H2. apply Z.eqb_eq in H4.
      destruct a as [a|], (Table.change_address x) as [b|] eqn:Hb;
        simpl in H3; try discriminate.
      apply String.eqb_eq in H3. subst. auto.
Qed.

(** ** Detecting the same pair again *)

Lemma fold_found_row (k : Z) (rows : list Table.tx_output)
    (init : option output_info) (a : option string) (v : option Z) :
  fold_left
    (fun found r =>
       if Z.eqb k (Table.vout_index r)
       then Some (Table.out_address r, Table.out_value r)
       else found)
    rows init = Some (a, v) ->
  init = Some (a, v)
  \/ exists r, In r rows /\ Table.out_address r = a /\ Table.out_value r = v.
Proof.
  revert init. induction rows as [|r rows IH]; intros init H; simpl in *.
  - now left.
  - apply IH in H as [H|(x & Hx & Hv)]; [|right; eauto].
    destruct (Z.eqb k (Table.vout_index r)); [|now left].
    right. exists r. split; [now left|]. split; congruence.
Qed.

Lemma output_at_row (s : store) (txid : string) (k : Z)
    (a : option string) (v : option Z) :
  output_at s txid k = Some (a, v) ->
  exists r, In r (tx_outputs s) /\ Table.out_txid r = txid
            /\ Table.out_address r = a /\ Table.out_value r = v.
Proof.
  intro H. unfold output_at in H.
  apply fold_found_row in H as [H|(r & Hr & Ha & Hv)]; [discriminate|].
  apply filter_In in Hr as [Hr Ht]. apply String.eqb_eq in Ht. eauto.
Qed.

Lemma insert_change_inputs_noop (orig new : string) (addr : option string)
    (idx : Z) (ts : string) (inputs : list (option string))
    (table : list Table.change_input) :
  (forall inp, In inp inputs ->
     exists x, In x table
       /\ change_input_conflict
            (change_input_row orig new addr idx ts inp) x = true) ->
  insert_change_inputs orig new addr idx ts inputs table = table.
Proof.
  unfold insert_change_inputs.
  induction inputs as [|a inputs IH]; intro H; simpl; [reflexivity|].
  destruct (H a (or_introl eq_refl)) as (x & Hx & Hc).
  rewrite (insert_or_ignore_present _ _ x table Hx Hc).
  apply IH. intros inp Hinp. apply H. now right.
Qed.

Lemma change_input_row_conflict (orig new : string) (a b : string) (idx : Z)
    (ts ts' : string) :
  change_input_conflict
    (change_input_row orig new (Some a) idx ts' (Some b))
    (change_input_row orig new (Some a) idx ts (Some b)) = true.
Proof.
  unfold change_input_conflict. simpl.
  now rewrite !String.eqb_refl, Z.eqb_refl.
Qed.

Lemma insert_change_inputs_covers (orig new : string) (a : string) (idx : Z)
    (ts ts' : string) (inputs : list (option string))
    (table : list Table.change_input) (b : string) :
  In (Some b) inputs ->
  exists x,
    In x (insert_change_inputs orig new (Some a) idx ts inputs table)
    /\ change_input_conflict
         (change_input_row orig new (Some a) idx ts' (Some b)) x = true.
Proof.
  revert table. induction inputs as [|c inputs IH]; intros table Hin;
    [contradiction|].
  destruct Hin as [->|Hin]; [|apply IH; exact Hin].
  change (insert_change_inputs orig new (Some a) idx ts (Some b :: inputs) table)
    with (insert_change_inputs orig new (Some a) idx ts inputs
            (insert_or_ignore change_input_conflict
               (change_input_row orig new (Some a) idx ts (Some b)) table)).
  destruct (insert_or_ignore_covers change_input_conflict
              (change_input_row orig new (Some a) idx ts (Some b)) table)
    as [Hr|(x & Hx & Hc)].
  - eexists. split; [apply insert_change_inputs_keeps; exact Hr|].
    apply change_input_row_conflict.
  - exists x. split.
    + apply insert_change_inputs_keeps. now apply insert_or_ignore_keeps.
    + exact Hc.
Qed.

(** Recording the same shrink a second time, with a change address and
    input addresses that are all present, changes no row. *)
Lemma with_event_again (orig new a : string) (i o n : Z) (ts ts' : string)
    (s : store) :
  (forall inp, In inp (select_input_addresses orig s) -> inp <> None) ->
  with_event orig new (Some a) i o n ts'
    (with_event orig new (Some a) i o n ts s)
  = with_event orig new (Some a) i o n ts s.
Proof.
  intro Hin. unfold with_event at 1.
  assert (Hrep :
    insert_or_ignore replacement_conflict
      (replacement_row orig new (Some a) i o n ts')
      (replacements (with_event orig new (Some a) i o n ts s))
    = replacements (with_event orig new (Some a) i o n ts s)).
  { simpl.
    destruct (insert_or_ignore_covers replacement_conflict
                (replacement_row orig new (Some a) i o n ts) (replacements s))
      as [Hr|(x & Hx & Hc)].
    - eapply insert_or_ignore_present; [exact Hr|].
      unfold replacement_conflict. simpl.
      now rewrite !String.eqb_refl, Z.eqb_refl.
    - eapply insert_or_ignore_present;
        [apply insert_or_ignore_keeps; exact Hx | exact Hc]. }
  assert (Hci :
    insert_change_inputs orig new (Some a) i ts'
      (select_input_addresses orig (with_event orig new (Some a) i o n ts s))
      (change_inputs (with_event orig new (Some a) i o n ts s))
    = change_inputs (with_event orig new (Some a) i o n ts s)).
  { apply insert_change_inputs_noop. intros inp Hinp.
    change (select_input_addresses orig
              (with_event orig new (Some a) i o n ts s))
      with (select_input_addresses orig s) in Hinp.
    destruct inp as [b|]; [|now destruct (Hin None Hinp)].
    apply insert_change_inputs_covers. exact Hinp. }
  rewrite Hci, Hrep. reflexivity.
Qed.

(** X5: detecting a pair twice is harmless when the addresses are there:
    if every stored output and input of [orig] has an address, a second call
    of the detector for the same pair leaves all six tables as the first
    call left them. *)
Theorem redetection_changes_nothing (E : env) (orig new : string) (w : world) :
  (forall r, In r (tx_outputs (db w)) -> Table.out_txid r = orig ->
     Table.out_address r <> None) ->
  (forall r, In r (tx_inputs (db w)) -> Table.in_txid r = orig ->
     Table.in_address r <> None) ->
  let w1 := snd (record_replacement E orig new w) in
  db (snd (record_replacement E orig new w1)) = db w1.
Proof.
  intros Hout Hin. cbn zeta.
  assert (Hsame : forall w1 i a o n i' a' o' n',
            db w1 = db w ->
            shrink_at (db w) orig new i a o n ->
            shrink_at (db w1) orig new i' a' o' n' ->
            i' = i /\ a' = a /\ o' = o /\ n' = n).
  { intros w1 i a o n i' a' o' n' Hdb Hs Hs'. rewrite Hdb in Hs'.
    destruct Hs as (_ & _ & Ho & Hn & Hone & Hlt).
    destruct Hs' as (_ & _ & Ho' & Hn' & _ & Hlt').
    assert (i' = i) as ->.
    { apply Hone. exists a', (Some o'), a', (Some n'). repeat split; auto.
      intro Heq. inversion Heq. lia. }
    rewrite Ho in Ho'. rewrite Hn in Hn'.
    inversion Ho'; inversion Hn'; auto. }
  destruct (record_replacement_cases E orig new w)
    as [H|[[H _]|[(i & a & o & n & Hs & Hbig & H)
                 |(i & a & o & n & Hs & Hfit & H)]]]; rewrite H; simpl;
    try (rewrite H; reflexivity).
  - set (w1 := tick w (db w)).
    destruct (record_replacement_cases E orig new w1)
      as [H1|[[H1 _]|[(i' & a' & o' & n' & Hs' & _ & H1)
                     |(i' & a' & o' & n' & Hs' & Hfit' & H1)]]]; rewrite H1;
      try reflexivity.
    exfalso.
    destruct (Hsame w1 i a o n i' a' o' n' eq_refl Hs Hs')
      as (_ & _ & -> & ->).
    lia.
  - set (w1 := tick w (with_event orig new a i o n (now_iso E w) (db w))).
    destruct (record_replacement_cases E orig new w1)
      as [H1|[[H1 _]|[(i' & a' & o' & n' & Hs' & _ & H1)
                     |(i' & a' & o' & n' & Hs' & _ & H1)]]]; rewrite H1;
      try reflexivity.
    change (shrink_at (db w) orig new i' a' o' n') in Hs'.
    destruct (Hsame w i a o n i' a' o' n' eq_refl Hs Hs')
      as (-> & -> & -> & ->).
    destruct Hs as (_ & _ & Ho & _).
    destruct (output_at_row _ _ _ _ _ Ho) as (r & Hr & Ht & Ha & _).
    destruct a as [a|]; [|now destruct (Hout r Hr Ht)].
    simpl. apply with_event_again.
    intros inp Hinp Hnone. subst inp.
    apply select_input_addresses_In in Hinp as (x & Hx & Hxt & Hxa).
    exact (Hin x Hx Hxt Hxa).
Qed.

(** ** Invariants of the detection tables *)

Section DetectionInvariant.

(** A property of the store that looks at [replacements] and
    [change_inputs] only and that every call of the detector keeps. *)
Variable P : store -> Prop.

Hypothesis P_frame :
  forall s s', replacements s' = replacements s ->
               change_inputs s' = change_inputs s -> P s -> P s'.
Hypothesis P_step :
  forall E orig new w,
    P (db w) -> P (db (snd (record_replacement E orig new w))).

Lemma replace_each_invariant (E : env) (txid : string) (origs : list string)
    (w : world) :
  P (db w) -> P (db (snd (replace_each E txid origs w))).
Proof.
  revert w. induction origs as [|o origs IH]; intros w H; simpl; [exact H|].
  destruct (negb (String.eqb o txid)); [|now apply IH].
  pose proof (P_step E o txid w H) as H1.
  destruct (record_replacement E o txid w) as [[|e] w1]; simpl in *; auto.
Qed.

Lemma detect_replacements_invariant (E : env) (txid : string)
    (vins : list Json.Vin.t) (w : world) :
  P (db w) -> P (db (snd (detect_replacements E txid vins w))).
Proof.
  revert w. induction vins as [|vin vins IH]; intros w H; simpl; [exact H|].
  destruct (Json.Vin.txid vin) as [p|]; simpl; [|exact H].
  destruct (Json.Vin.vout vin) as [v|]; simpl; [|exact H].
  pose proof (replace_each_invariant E txid (select_spenders p v (db w)) w H)
    as H1.
  destruct (replace_each E txid _ w) as [[|e] w1]; simpl in *; auto.
Qed.

Lemma process_added_invariant (E : env) (txid : string) (w : world) :
  P (db w) -> P (db (snd (process_added_nocommit E txid w))).
Proof.
  intro H. unfold process_added_nocommit.
  destruct (fetch_tx E txid) as [txj|]; [|exact H]. cbn zeta.
  destruct (insert_inputs txid _ _ false) as [[[|e] t'] [|]]; simpl;
    try (eapply P_frame; [| |exact H]; reflexivity).
  apply detect_replacements_invariant. simpl.
  eapply P_frame; [| |exact H]; reflexivity.
Qed.

Lemma process_all_invariant (E : env) (txids : list string) (w : world) :
  P (db w) -> P (db (snd (process_all E txids w))).
Proof.
  revert w. induction txids as [|t txids IH]; intros w H; simpl; [exact H|].
  pose proof (process_added_invariant E t w H) as H1.
  destruct (process_added_nocommit E t w) as [[|e] w1]; simpl in *; auto.
Qed.

(** When the purge keeps the property too, the worker keeps it on the rows
    it sees and on the rows it has committed. *)
Hypothesis P_purge : forall ts s, P s -> P (purge_rows ts s).

Lemma flush_batch_invariant (E : env) (b : worker) :
  holds_on P (conn b) -> holds_on P (conn (snd (flush_batch E b))).
Proof.
  intros [H1 H2]. unfold flush_batch.
  pose proof (process_all_invariant E (buffer b) (live (conn b)) H1) as H.
  destruct (process_all E (buffer b) (live (conn b))) as [[|e] w1];
    simpl in *; split; auto.
Qed.

Lemma run_loop_invariant (E : env) (events : list event) (b : worker) :
  holds_on P (conn b) -> holds_on P (conn (snd (run_loop E events b))).
Proof.
  revert b. induction events as [|ev events IH]; intros b H; simpl; [exact H|].
  destruct ev as [txid| | |tag]; auto.
  - destruct (Nat.leb _ _); [|now apply IH].
    match goal with |- context [flush_batch E ?b1] =>
      pose proof (flush_batch_invariant E b1 H) as H1;
      destruct (flush_batch E b1) as [[|e] b2]
    end; simpl in *; auto.
  - apply IH. destruct H as [H1 H2]. split; simpl; now apply P_purge.
Qed.

Lemma run_invariant (E : env) (events : list event) (b : worker) :
  holds_on P (conn b) -> holds_on P (conn (snd (run E events b))).
Proof.
  intro H. unfold run.
  pose proof (run_loop_invariant E events b H) as H1.
  destruct (run_loop E events b) as [[|e|] b1]; simpl in *; auto;
    unfold finally_clause;
    (destruct (buffer b1);
     [simpl; destruct H1; split; simpl; auto
     |pose proof (flush_batch_invariant E b1 H1) as H2;
      destruct (flush_batch E b1) as [[|e'] b2]; simpl in *; auto;
      destruct H2; split; simpl; auto]).
Qed.

End DetectionInvariant.

Lemma purge_rows_events_are_shrinks (ts : string) (s : store) :
  events_are_shrinks s -> events_are_shrinks (purge_rows ts s).
Proof.
  intros H r Hr. simpl in Hr. apply filter_In in Hr as [Hr _]. now apply H.
Qed.

(** X6: whatever events the worker consumes, and however its run ends,
    every event among the rows it sees and among the rows it has committed
    is a strict shrink (new_value < old_value) between two different
    transactions with diff = old_value - new_value, provided this held when
    it started. *)
Theorem stored_events_are_shrinks (E : env) (events : list event)
    (b : worker) :
  holds_on events_are_shrinks (conn b) ->
  holds_on events_are_shrinks (conn (snd (run E events b))).
Proof.
  apply run_invariant.
  - intros s s' Hr _ H r Hin. rewrite Hr in Hin. now apply H.
  - apply events_are_shrinks_step.
  - apply purge_rows_events_are_shrinks.
Qed.

Lemma stored_events_are_shrinks_witness :
  holds_on events_are_shrinks
    (conn (snd (run Sample.E [Added "orig"; Added "new"; Purge; Stop]
                  (new_worker 1)))).
Proof.
  apply stored_events_are_shrinks. split; intros r [].
Defined.

(** X7: ingestion keeps every mapping tied to an event: if each row of
    [change_inputs] has a row of [replacements] with the same pair, change
    address and index, so it is after any sequence of txids was processed,
    also when the processing ends in an exception. *)
Theorem mappings_keep_their_events (E : env) (txids : list string)
    (w : world) :
  mappings_have_events (db w) ->
  mappings_have_events (db (snd (process_all E txids w))).
Proof.
  apply process_all_invariant.
  - intros s s' Hr Hc H m Hm. rewrite Hc in Hm.
    destruct (H m Hm) as (r & Hin & Hk). exists r. rewrite Hr. auto.
  - apply mappings_have_events_step.
Qed.

Lemma mappings_keep_their_events_witness :
  mappings_have_events
    (db (snd (process_all Sample.E ["orig"; "new"; "bad"] Sample.fresh))).
Proof.
  apply mappings_keep_their_events. intros m [].
Defined.

(** X8: the purge does not keep that tie: once every event is older than
    the cutoff, the purge removes all events and keeps all mappings, so a
    store with any mapping is left with mappings that have no event. *)
Theorem purge_leaves_mappings_without_events (ts : string) (s : store) :
  change_inputs s <> [] ->
  (forall r, In r (replacements s) -> older_than ts (Table.detected_at r)) ->
  replacements (purge_rows ts s) = []
  /\ change_inputs (purge_rows ts s) = change_inputs s
  /\ ~ mappings_have_events (purge_rows ts s).
Proof.
  intros Hne Hold.
  assert (Hempty : replacements (purge_rows ts s) = []).
  { simpl. destruct (filter _ (replacements s)) as [|r l] eqn:Hf; [reflexivity|].
    assert (In r (filter (fun r => negb (String.ltb (Table.detected_at r) ts))
                    (replacements s))) as Hin by (rewrite Hf; now left).
    apply (not_older_filter Table.detected_at) in Hin as [Hin Hn].
    now destruct (Hn (Hold r Hin)). }
  split; [exact Hempty|]. split; [reflexivity|].
  intro Hinv. destruct (change_inputs s) as [|m l] eqn:Hc; [congruence|].
  destruct (Hinv m) as (r & Hr & _).
  - simpl. rewrite Hc. now left.
  - rewrite Hempty in Hr. exact Hr.
Qed.

(** ** What ingestion stores *)

Lemma combine_map_fst {A B C : Type} (f : A -> C) (l : list A) (l' : list B) :
  combine (map f l) l' = map (fun p => (f (fst p), snd p)) (combine l l').
Proof.
  revert l'. induction l as [|a l IH]; intros [|b l']; simpl; auto.
  now rewrite IH.
Qed.

Lemma output_rows_cons (txid : string) (idx : Z) (v : Json.Vout.t)
    (vs : list Json.Vout.t) :
  output_rows txid idx (v :: vs)
  = {| Table.out_txid := txid; Table.vout_index := idx;
       Table.out_address := Json.Vout.scriptpubkey_address v;
       Table.out_value := Json.Vout.value v |}
    :: output_rows txid (idx + 1) vs.
Proof.
  unfold output_rows. cbn [List.length seq combine map fst snd].
  rewrite <- seq_shift, combine_map_fst, map_map.
  f_equal; [f_equal; lia|].
  apply map_ext. intros [k u]. cbn [fst snd]. f_equal. lia.
Qed.

Lemma insert_outputs_spec (txid : string) (idx : Z) (vouts : list Json.Vout.t)
    (table : list Table.tx_output) :
  insert_outputs txid idx vouts table = table ++ output_rows txid idx vouts.
Proof.
  revert idx table. induction vouts as [|v vs IH]; intros idx table; simpl.
  - unfold output_rows. simpl. now rewrite app_nil_r.
  - rewrite IH, output_rows_cons, <- app_assoc. reflexivity.
Qed.

(** X9: a transaction whose inputs carry their keys gets its outputs
    stored after the rows already there, one row per element of [vout] in
    order, the k-th (from 0) with vout_index k and with the address and
    value of that element, NULL where the key is absent. *)
Theorem outputs_are_numbered_from_zero (E : env) (txid : string)
    (txj : Json.Tx.t) (w : world) :
  fetch_tx E txid = Some txj ->
  inputs_well_formed txj ->
  tx_outputs (db (snd (process_added_nocommit E txid w)))
  = tx_outputs (db w) ++ output_rows txid 0 (get_or (Json.Tx.vout txj) []).
Proof.
  intros Hf Hwf. unfold process_added_nocommit. rewrite Hf. cbn zeta.
  match goal with |- context [insert_inputs txid ?v ?t false] =>
    pose proof (insert_inputs_well_formed txid v t false Hwf) as Hok;
    destruct (insert_inputs txid v t false) as [[o t'] f']
  end.
  destruct Hok as (-> & _).
  destruct f'; simpl; [|apply insert_outputs_spec].
  match goal with |- context [detect_replacements E txid ?v ?w0] =>
    destruct (detect_replacements_same_ingested E txid v w0)
      as (_ & _ & H & _)
  end.
  rewrite H. simpl. apply insert_outputs_spec.
Qed.

Lemma outputs_are_numbered_from_zero_witness :
  map Table.vout_index
    (tx_outputs (db (snd (process_added_nocommit Sample.E "orig" Sample.fresh))))
  = [0; 1].
Proof.
  rewrite (outputs_are_numbered_from_zero Sample.E "orig" Sample.orig_tx
             Sample.fresh eq_refl).
  - reflexivity.
  - intros vin [<-|[<-|[]]]; split; discriminate.
Defined.

(** X10: the first row of a txid wins: when [tx] already has a row for
    the txid, processing it again leaves the table as it is, so the stored
    fetched_at, fee and vsize are never updated. *)
Theorem stored_transaction_is_never_updated (E : env) (txid : string)
    (w : world) :
  has_tx (tx (db w)) txid = true ->
  tx (db (snd (process_added_nocommit E txid w))) = tx (db w).
Proof.
  intro H. destruct (fetch_tx E txid) as [txj|] eqn:Hf.
  - rewrite (process_added_tx_table E txid txj w Hf).
    apply has_tx_true in H as (r & Hin & Heq).
    apply (insert_or_ignore_present _ _ r); auto.
    unfold tx_conflict. simpl. apply String.eqb_eq. now symmetry.
  - now rewrite fetch_failure_is_skipped.
Qed.

Lemma stored_transaction_is_never_updated_witness :
  let w1 := snd (process_added_nocommit Sample.E "good" Sample.fresh) in
  tx (db (snd (process_added_nocommit Sample.E "good" w1))) = tx (db w1).
Proof.
  cbn zeta. apply stored_transaction_is_never_updated. reflexivity.
Defined.

Lemma insert_inputs_keeps (txid : string) (vins : list Json.Vin.t)
    (table : list Table.tx_input) (flag : bool) :
  incl table (snd (fst (insert_inputs txid vins table flag))).
Proof.
  revert table flag. induction vins as [|vin vins IH]; intros table flag; simpl.
  - apply incl_refl.
  - destruct (Json.Vin.txid vin) as [p|]; [|apply incl_refl].
    destruct (Json.Vin.vout vin) as [v|]; [|apply incl_refl].
    eapply incl_tran; [|apply IH]. now apply incl_appl, incl_refl.
Qed.

Lemma replace_each_grows (E : env) (txid : string) (origs : list string)
    (w : world) :
  grows (db w) (db (snd (replace_each E txid origs w))).
Proof.
  revert w. induction origs as [|o origs IH]; intro w; simpl.
  - apply grows_refl.
  - destruct (negb (String.eqb o txid)); [|apply IH].
    pose proof (record_replacement_grows E o txid w) as H.
    destruct (record_replacement E o txid w) as [[|e] w1]; simpl in *; auto.
    eapply grows_trans; [exact H | apply IH].
Qed.

Lemma detect_replacements_grows (E : env) (txid : string)
    (vins : list Json.Vin.t) (w : world) :
  grows (db w) (db (snd (detect_replacements E txid vins w))).
Proof.
  revert w. induction vins as [|vin vins IH]; intro w; simpl.
  - apply grows_refl.
  - destruct (Json.Vin.txid vin) as [p|]; simpl; [|apply grows_refl].
    destruct (Json.Vin.vout vin) as [v|]; simpl; [|apply grows_refl].
    pose proof (replace_each_grows E txid (select_spenders p v (db w)) w) as H.
    destruct (replace_each E txid _ w) as [[|e] w1]; simpl in *; auto.
    eapply grows_trans; [exact H | apply IH].
Qed.

Lemma process_added_grows (E : env) (txid : string) (w : world) :
  grows (db w) (db (snd (process_added_nocommit E txid w))).
Proof.
  unfold process_added_nocommit.
  destruct (fetch_tx E txid) as [txj|]; [|apply grows_refl]. cbn zeta.
  match goal with |- context [insert_inputs txid ?v ?t false] =>
    pose proof (insert_inputs_keeps txid v t false) as Hin;
    destruct (insert_inputs txid v t false) as [[o t'] f']
  end.
  simpl in Hin.
  assert (Htx : forall x r, In x (tx (db w)) ->
                  In x (insert_or_ignore tx_conflict r (tx (db w))))
    by (intros; now apply insert_or_ignore_keeps).
  destruct o as [|e]; [destruct f'|]; simpl.
  - eapply grows_trans; [|apply detect_replacements_grows]. simpl.
    repeat split; simpl; try apply incl_refl; auto.
    + intros x Hx. now apply Htx.
    + rewrite insert_outputs_spec. now apply incl_appl, incl_refl.
    + intros x Hx. now apply insert_or_ignore_keeps.
  - repeat split; simpl; try apply incl_refl; auto.
    + intros x Hx. now apply Htx.
    + rewrite insert_outputs_spec. now apply incl_appl, incl_refl.
  - repeat split; simpl; try apply incl_refl; auto.
    intros x Hx. now apply Htx.
Qed.

(** X11: ingestion never deletes or alters a row: after any sequence of
    txids was processed, with or without an exception, every row that was
    in one of the six tables is still in it. *)
Theorem ingestion_only_adds (E : env) (txids : list string) (w : world) :
  grows (db w) (db (snd (process_all E txids w))).
Proof.
  revert w. induction txids as [|t txids IH]; intro w; simpl.
  - apply grows_refl.
  - pose proof (process_added_grows E t w) as H.
    destruct (process_added_nocommit E t w) as [[|e] w1]; simpl in *; auto.
    eapply grows_trans; [exact H | apply IH].
Qed.

(** ** Whom a detection can link *)

Lemma record_replacement_new_rows (E : env) (orig new : string) (w : world)
    (r : Table.replacement) :
  In r (replacements (db (snd (record_replacement E orig new w)))) ->
  In r (replacements (db w))
  \/ (Table.orig_txid r = orig /\ Table.new_txid r = new).
Proof.
  destruct (record_replacement_cases E orig new w)
    as [H|[[H _]|[(i & a & o & n & _ & _ & H)|(i & a & o & n & _ & _ & H)]]];
    rewrite H; simpl; auto.
  intro Hr. apply insert_or_ignore_rows in Hr as [Hr| ->]; auto.
Qed.

Lemma select_spenders_candidates (p : string) (v : Z) (s : store)
    (o : string) :
  In o (select_spenders p v s) -> is_rbf_candidate s o.
Proof.
  unfold select_spenders, is_rbf_candidate. intro H.
  apply in_flat_map in H as (ti & _ & H).
  apply in_map_iff in H as (c & <- & Hc).
  apply filter_In in Hc as [Hc Heq]. apply String.eqb_eq in Heq.
  rewrite Heq. now apply in_map.
Qed.

Lemma replace_each_new_rows (E : env) (txid : string) (origs : list string)
    (w : world) (r : Table.replacement) :
  In r (replacements (db (snd (replace_each E txid origs w)))) ->
  In r (replacements (db w))
  \/ (In (Table.orig_txid r) origs /\ Table.orig_txid r <> txid
      /\ Table.new_txid r = txid).
Proof.
  revert w. induction origs as [|o origs IH]; intros w H; simpl in *; auto.
  destruct (String.eqb o txid) eqn:Heq; simpl in H.
  - apply IH in H as [H|(H1 & H2 & H3)]; auto.
  - apply String.eqb_neq in Heq.
    pose proof (record_replacement_new_rows E o txid w r) as Hrr.
    destruct (record_replacement E o txid w) as [[|e] w1]; simpl in *.
    + apply IH in H as [H|(H1 & H2 & H3)]; [|auto].
      destruct (Hrr H) as [H'|[H1 H2]]; auto.
      right. rewrite H1. auto.
    + destruct (Hrr H) as [H'|[H1 H2]]; auto.
      right. rewrite H1. auto.
Qed.

Lemma detect_replacements_new_rows (E : env) (txid : string)
    (vins : list Json.Vin.t) (w : world) (r : Table.replacement) :
  In r (replacements (db (snd (detect_replacements E txid vins w)))) ->
  In r (replacements (db w))
  \/ (Table.new_txid r = txid /\ Table.orig_txid r <> txid
      /\ is_rbf_candidate (db w) (Table.orig_txid r)).
Proof.
  revert w. induction vins as [|vin vins IH]; intros w H; simpl in *; auto.
  destruct (Json.Vin.txid vin) as [p|]; simpl in H; auto.
  destruct (Json.Vin.vout vin) as [v|]; simpl in H; auto.
  pose proof (replace_each_new_rows E txid (select_spenders p v (db w)) w r)
    as Hre.
  pose proof (replace_each_same_ingested E txid (select_spenders p v (db w)) w)
    as (_ & _ & _ & Hrbf).
  destruct (replace_each E txid _ w) as [[|e] w1]; simpl in *.
  - apply IH in H as [H|(H1 & H2 & H3)].
    + destruct (Hre H) as [H'|(H1 & H2 & H3)]; auto.
      right. repeat split; auto. now apply select_spenders_candidates in H1.
    + right. repeat split; auto.
      unfold is_rbf_candidate in *. now rewrite <- Hrbf.
  - destruct (Hre H) as [H'|(H1 & H2 & H3)]; auto.
    right. repeat split; auto. now apply select_spenders_candidates in H1.
Qed.

(** X12: ingestion links stored RBF candidates only: every event in
    [replacements] after a txid was processed either was there before, or
    names the processed txid as the replacement and, as the original, a
    different txid that was an RBF candidate before the call. *)
Theorem only_candidates_are_replaced (E : env) (txid : string) (w : world)
    (r : Table.replacement) :
  In r (replacements (db (snd (process_added_nocommit E txid w)))) ->
  In r (replacements (db w))
  \/ (Table.new_txid r = txid /\ Table.orig_txid r <> txid
      /\ is_rbf_candidate (db w) (Table.orig_txid r)).
Proof.
  unfold process_added_nocommit.
  destruct (fetch_tx E txid) as [txj|]; auto. cbn zeta.
  destruct (insert_inputs txid _ _ false) as [[[|e] t'] [|]]; simpl; auto.
  intro H. apply detect_replacements_new_rows in H as [H|(H1 & H2 & H3)]; auto.
  right. repeat split; auto.
  unfold is_rbf_candidate in *. simpl in H3.
  apply in_map_iff in H3 as (c & Hc & Hin).
  apply insert_or_ignore_rows in Hin as [Hin| ->].
  - rewrite <- Hc. now apply in_map.
  - simpl in Hc. congruence.
Qed.

Lemma only_candidates_are_replaced_witness :
  let w1 := snd (process_added_nocommit Sample.E "orig" Sample.fresh) in
  let r := replacement_row "orig" "new" (Some "B") 1 500 480
             "2023-11-14T22:13:20" in
  Table.new_txid r = "new" /\ Table.orig_txid r <> "new"
  /\ is_rbf_candidate (db w1) (Table.orig_txid r).
Proof.
  cbn zeta.
  destruct (only_candidates_are_replaced Sample.E "new"
              (snd (process_added_nocommit Sample.E "orig" Sample.fresh))
              (replacement_row "orig" "new" (Some "B") 1 500 480
                 "2023-11-14T22:13:20")) as [Hold|Hnew].
  - vm_compute. left. reflexivity.
  - vm_compute in Hold. destruct Hold.
  - exact Hnew.
Defined.

(** ** The input rows *)

Lemma insert_inputs_spec (txid : string) (vins : list Json.Vin.t)
    (table : list Table.tx_input) (flag : bool) :
  (forall vin, In vin vins ->
     Json.Vin.txid vin <> None /\ Json.Vin.vout vin <> None) ->
  exists rows flag',
    insert_inputs txid vins table flag = (Done, table ++ rows, flag')
    /\ map (fun r => (Table.in_txid r, Some (Table.prev_txid r),
                      Some (Table.prev_vout r), Table.sequence r)) rows
       = map (fun vin => (txid, Json.Vin.txid vin, Json.Vin.vout vin,
                          get_or (Json.Vin.sequence vin) 0)) vins
    /\ map (fun r => (Table.in_address r, Table.in_value r)) rows
       = map (fun vin =>
                match Json.Vin.prevout vin with
                | Some p => (Json.Prevout.scriptpubkey_address p,
                             Json.Prevout.value p)
                | None => (None, None)
                end) vins.
Proof.
  revert table flag. induction vins as [|vin vins IH]; intros table flag Hwf.
  - exists [], flag. simpl. rewrite app_nil_r. auto.
  - destruct (Hwf vin (or_introl eq_refl)) as [Ht Hv]. simpl.
    destruct (Json.Vin.txid vin) as [p|] eqn:Ep; [|congruence].
    destruct (Json.Vin.vout vin) as [v|] eqn:Ev; [|congruence].
    match goal with |- context [insert_inputs txid vins ?t ?f] =>
      destruct (IH t f) as (rows & f' & Hrun & Hk & Ha)
    end; [intros x Hx; apply Hwf; now right|].
    eexists (_ :: rows), f'. rewrite Hrun, <- app_assoc. simpl.
    split; [reflexivity|]. rewrite Hk, Ha. split; [reflexivity|].
    now destruct (Json.Vin.prevout vin).
Qed.

(** X13: a transaction whose inputs carry their keys gets one input row
    per element of [vin], in order, after the rows already there: with the
    txid, the spent outpoint, the sequence (0 when absent) and the address
    and value of [prevout], both NULL when [prevout] is absent. *)
Theorem inputs_are_stored_in_order (E : env) (txid : string)
    (txj : Json.Tx.t) (w : world) :
  fetch_tx E txid = Some txj ->
  inputs_well_formed txj ->
  exists rows,
    tx_inputs (db (snd (process_added_nocommit E txid w)))
    = tx_inputs (db w) ++ rows
    /\ map (fun r => (Table.in_txid r, Some (Table.prev_txid r),
                      Some (Table.prev_vout r), Table.sequence r)) rows
       = map (fun vin => (txid, Json.Vin.txid vin, Json.Vin.vout vin,
                          get_or (Json.Vin.sequence vin) 0))
           (get_or (Json.Tx.vin txj) [])
    /\ map (fun r => (Table.in_address r, Table.in_value r)) rows
       = map (fun vin =>
                match Json.Vin.prevout vin with
                | Some p => (Json.Prevout.scriptpubkey_address p,
                             Json.Prevout.value p)
                | None => (None, None)
                end) (get_or (Json.Tx.vin txj) []).
Proof.
  intros Hf Hwf. unfold process_added_nocommit. rewrite Hf. cbn zeta.
  match goal with |- context [insert_inputs txid ?v ?t false] =>
    destruct (insert_inputs_spec txid v t false Hwf)
      as (rows & f' & Hrun & Hk & Ha)
  end.
  rewrite Hrun. exists rows. split; [|auto].
  destruct f'; simpl; [|reflexivity].
  match goal with |- context [detect_replacements E txid ?v ?w0] =>
    destruct (detect_replacements_same_ingested E txid v w0)
      as (_ & H & _)
  end.
  rewrite H. reflexivity.
Qed.

Lemma inputs_are_stored_in_order_witness :
  exists rows,
    tx_inputs (db (snd (process_added_nocommit Sample.E "bare" Sample.fresh)))
    = rows
    /\ map (fun r => (Table.in_txid r, Some (Table.prev_txid r),
                      Some (Table.prev_vout r), Table.sequence r)) rows
       = [("bare", Some "q", Some 0, 0)]
    /\ map (fun r => (Table.in_address r, Table.in_value r)) rows
       = [(None, None)].
Proof.
  apply (inputs_are_stored_in_order Sample.E "bare" Sample.bare_tx
           Sample.fresh eq_refl).
  intros vin [<-|[]]; split; discriminate.
Defined.

Lemma insert_inputs_prefix (txid : string) (good : list Json.Vin.t)
    (table : list Table.tx_input) (flag : bool) :
  (forall vin, In vin good ->
     Json.Vin.txid vin <> None /\ Json.Vin.vout vin <> None) ->
  exists rows flag',
    List.length rows = List.length good
    /\ forall rest,
         insert_inputs txid (good ++ rest) table flag
         = insert_inputs txid rest (table ++ rows) flag'.
Proof.
  revert table flag. induction good as [|vin good IH]; intros table flag Hwf.
  - exists [], flag. split; [reflexivity|]. intro rest. now rewrite app_nil_r.
  - destruct (Hwf vin (or_introl eq_refl)) as [Ht Hv].
    destruct (Json.Vin.txid vin) as [p|] eqn:Ep; [|congruence].
    destruct (Json.Vin.vout vin) as [v|] eqn:Ev; [|congruence].
    match goal with |- _ =>
      destruct (IH (table ++ [{| Table.in_txid := txid; Table.prev_txid := p;
                Table.prev_vout := v;
                Table.in_address :=
                  Json.Prevout.scriptpubkey_address
                    (get_or (Json.Vin.prevout vin)
                       {| Json.Prevout.scriptpubkey_address := None;
                          Json.Prevout.value := None |});
                Table.in_value :=
                  Json.Prevout.value
                    (get_or (Json.Vin.prevout vin)
                       {| Json.Prevout.scriptpubkey_address := None;
                          Json.Prevout.value := None |});
                Table.sequence := get_or (Json.Vin.sequence vin) 0 |}])
              (if Z.ltb (get_or (Json.Vin.sequence vin) 0) RBF_SEQ_THRESHOLD
               then true else flag))
        as (rows & f' & Hlen & Hrun)
    end; [intros x Hx; apply Hwf; now right|].
    eexists (_ :: rows), f'. split; [simpl; now rewrite Hlen|].
    intro rest. simpl. rewrite Ep, Ev, Hrun, <- app_assoc. reflexivity.
Qed.

(** X14: an input object without [txid] or [vout] ends the ingestion of
    its transaction with a KeyError after some of its rows were written: the
    transaction row and the rows of the inputs before the malformed one are
    on the connection; no output row, no candidate row, no event and no
    mapping is. *)
Theorem malformed_input_leaves_partial_rows (E : env) (txid : string)
    (txj : Json.Tx.t) (w : world) (good rest : list Json.Vin.t)
    (bad : Json.Vin.t) :
  fetch_tx E txid = Some txj ->
  get_or (Json.Tx.vin txj) [] = good ++ bad :: rest ->
  (forall vin, In vin good ->
     Json.Vin.txid vin <> None /\ Json.Vin.vout vin <> None) ->
  Json.Vin.txid bad = None \/ Json.Vin.vout bad = None ->
  let r := process_added_nocommit E txid w in
  (fst r = Raised (KeyError "txid") \/ fst r = Raised (KeyError "vout"))
  /\ has_tx (tx (db (snd r))) txid = true
  /\ List.length (tx_inputs (db (snd r)))
     = (List.length (tx_inputs (db w)) + List.length good)%nat
  /\ tx_outputs (db (snd r)) = tx_outputs (db w)
  /\ rbf_txs (db (snd r)) = rbf_txs (db w)
  /\ same_detections w (snd r).
Proof.
  intros Hf Hv Hwf Hbad. cbn zeta.
  pose proof (process_added_stores_tx E txid w) as Hst.
  unfold process_added_nocommit in *. rewrite Hf in *. cbn zeta in *.
  rewrite Hv in *.
  match goal with |- context [insert_inputs txid _ ?t false] =>
    destruct (insert_inputs_prefix txid good t false Hwf)
      as (rows & f' & Hlen & Hrun)
  end.
  rewrite Hrun in *. simpl insert_inputs in *.
  destruct (Json.Vin.txid bad) as [p|] eqn:Ep.
  - destruct Hbad as [Hbad|Hbad]; [discriminate|]. rewrite Hbad in *.
    simpl in *. repeat split; auto.
    + apply Hst. discriminate.
    + rewrite length_app. simpl. now rewrite Hlen.
  - simpl in *. repeat split; auto.
    + apply Hst. discriminate.
    + rewrite length_app. simpl. now rewrite Hlen.
Qed.

Lemma malformed_input_leaves_partial_rows_witness :
  let r := process_added_nocommit Sample.E "bad" Sample.fresh in
  (fst r = Raised (KeyError "txid") \/ fst r = Raised (KeyError "vout"))
  /\ has_tx (tx (db (snd r))) "bad" = true
  /\ List.length (tx_inputs (db (snd r))) = 0%nat
  /\ tx_outputs (db (snd r)) = []
  /\ rbf_txs (db (snd r)) = []
  /\ same_detections Sample.fresh (snd r).
Proof.
  apply (malformed_input_leaves_partial_rows Sample.E "bad" Sample.bad_tx
           Sample.fresh [] []
           {| Json.Vin.txid := None; Json.Vin.vout := Some 0;
              Json.Vin.sequence := Some 0xFFFFFFFD;
              Json.Vin.prevout := None |} eq_refl eq_refl).
  - intros vin [].
  - now left.
Defined.

(** ** What the Poller emits *)

Lemma poll_loop_events (answers : list snapshot) (last : list string) :
  fst (poll_loop answers last)
  = match answers with
    | [] => []
    | None :: rest => fst (poll_loop rest last)
    | Some txids :: rest =>
        map Added (filter (fun t => negb (seen last t)) txids)
        ++ fst (poll_loop rest txids)
    end.
Proof.
  destruct answers as [|[txids|] rest]; simpl; auto.
  now destruct (poll_loop rest txids).
Qed.

Lemma poll_loop_baseline (answers : list snapshot) (last : list string) :
  snd (poll_loop answers last)
  = match answers with
    | [] => last
    | None :: rest => snd (poll_loop rest last)
    | Some txids :: rest => snd (poll_loop rest txids)
    end.
Proof.
  destruct answers as [|[txids|] rest]; simpl; auto.
  now destruct (poll_loop rest txids).
Qed.

(** X15: failed polls leave no trace: the events the Poller emits and the
    baseline it ends with are those it would have had if only the successful
    polls after the first had taken place. *)
Theorem failed_polls_leave_no_trace (initial : list string)
    (rest : list snapshot) :
  poller_run (Some initial :: rest)
  = poller_run (Some initial :: successes rest).
Proof.
  assert (H : forall answers last,
            poll_loop answers last = poll_loop (successes answers) last).
  { induction answers as [|[txids|] answers IH]; intro last; simpl; auto.
    now rewrite IH. }
  simpl. now rewrite H.
Qed.

Lemma seen_spec (last : list string) (t : string) :
  seen last t = true <-> In t last.
Proof.
  unfold seen. rewrite existsb_exists. split.
  - intros (x & Hx & Heq). apply String.eqb_eq in Heq. now subst.
  - intro H. exists t. split; auto. apply String.eqb_refl.
Qed.

(** X16: a txid that stays in the mempool is announced once: while it is
    in the baseline and in every snapshot fetched afterwards, the polling
    loop never emits it again. *)
Theorem resident_txid_is_not_emitted_again (answers : list snapshot)
    (last : list string) (t : string) :
  In t last ->
  (forall txids, In (Some txids) answers -> In t txids) ->
  ~ In (Added t) (fst (poll_loop answers last)).
Proof.
  revert last. induction answers as [|[txids|] answers IH];
    intros last Hlast Hall; rewrite poll_loop_events.
  - intros [].
  - intro H. apply in_app_or in H as [H|H].
    + apply in_map_iff in H as (x & Hx & Hin). inversion Hx; subst x.
      apply filter_In in Hin as [_ Hin].
      apply seen_spec in Hlast. rewrite Hlast in Hin. discriminate.
    + revert H. apply IH.
      * apply Hall. now left.
      * intros l Hl. apply Hall. now right.
  - apply IH; auto. intros l Hl. apply Hall. now right.
Qed.

Lemma resident_txid_is_not_emitted_again_witness :
  ~ In (Added "a")
      (fst (poll_loop [Some ["a"; "b"]; None; Some ["c"; "a"]] ["a"])).
Proof.
  apply resident_txid_is_not_emitted_again.
  - now left.
  - intros txids [H|[H|[H|[]]]]; inversion H; subst; simpl; auto.
Defined.

(** X17: the Poller puts nothing on the queue but [added] events, each for
    a txid of one of the snapshots it fetched. *)
Theorem poller_emits_snapshot_txids (answers : list snapshot) (ev : event) :
  In ev (snd (fst (poller_run answers))) ->
  exists t txids, ev = Added t /\ In (Some txids) answers /\ In t txids.
Proof.
  assert (H : forall answers last,
            In ev (fst (poll_loop answers last)) ->
            exists t txids,
              ev = Added t /\ In (Some txids) answers /\ In t txids).
  { induction answers0 as [|[txids|] answers0 IH]; intros last Hin;
      rewrite poll_loop_events in Hin.
    - destruct Hin.
    - apply in_app_or in Hin as [Hin|Hin].
      + apply in_map_iff in Hin as (x & <- & Hx).
        apply filter_In in Hx as [Hx _].
        exists x, txids. split; auto. split; auto. now left.
      + destruct (IH _ Hin) as (t & l & H1 & H2 & H3).
        exists t, l. split; auto. split; auto. now right.
    - destruct (IH _ Hin) as (t & l & H1 & H2 & H3).
      exists t, l. split; auto. split; auto. now right. }
  destruct answers as [|[initial|] rest]; simpl; try tauto.
  pose proof (H rest initial) as Hrest.
  destruct (poll_loop rest initial) as [events last]. simpl in *.
  intro Hin. apply in_app_or in Hin as [Hin|Hin].
  - apply in_map_iff in Hin as (x & <- & Hx).
    exists x, initial. repeat split; simpl; auto.
  - destruct (Hrest Hin) as (t & l & H1 & H2 & H3).
    exists t, l. repeat split; simpl; auto.
Qed.

Lemma poller_emits_snapshot_txids_witness :
  exists t txids,
    Added "b" = Added t
    /\ In (Some txids) [Some ["a"]; None; Some ["a"; "b"]] /\ In t txids.
Proof.
  apply poller_emits_snapshot_txids. simpl. auto.
Defined.

(** ** What the Batch Worker consumes *)

(** X18: events queued behind a stop are never consumed: the run over a
    queue that holds a stop is the run over the queue cut after that
    stop. *)
Theorem events_after_stop_are_ignored (E : env) (pre rest : list event)
    (b : worker) :
  run E (pre ++ Stop :: rest) b = run E (pre ++ [Stop]) b.
Proof.
  assert (H : run_loop E (pre ++ Stop :: rest) b
              = run_loop E (pre ++ [Stop]) b).
  { revert b. induction pre as [|ev pre IH]; intro b; simpl; [reflexivity|].
    destruct ev as [txid| | |tag]; auto.
    destruct (Nat.leb _ _); auto.
    destruct (flush_batch E _) as [[|e] b2]; auto. }
  unfold run. now rewrite H.
Qed.

(** X19: an event with an unknown tag has no effect: the run over a queue
    is the run over the queue without its unknown events. *)
Theorem unknown_events_are_ignored (E : env) (events : list event)
    (b : worker) :
  run E events b = run E (filter (fun ev => negb (is_unknown ev)) events) b.
Proof.
  assert (H : run_loop E events b
              = run_loop E (filter (fun ev => negb (is_unknown ev)) events) b).
  { revert b. induction events as [|ev events IH]; intro b; simpl;
      [reflexivity|].
    destruct ev as [txid| | |tag]; simpl; auto.
    destruct (Nat.leb _ _); auto.
    destruct (flush_batch E _) as [[|e] b2]; auto. }
  unfold run. now rewrite H.
Qed.

Lemma flush_batch_done (E : env) (b b' : worker) :
  flush_batch E b = (Done, b') ->
  buffer b' = [] /\ settled (conn b') /\ batch_size b' = batch_size b
  /\ closed (conn b') = closed (conn b)
  /\ live (conn b') = snd (process_all E (buffer b) (live (conn b))).
Proof.
  unfold flush_batch.
  destruct (process_all E (buffer b) (live (conn b))) as [[|e] w'];
    intro H; inversion H; subst. repeat split.
Qed.

Lemma flush_batch_raised (E : env) (b b' : worker) (e : exn) :
  flush_batch E b = (Raised e, b') ->
  buffer b' = buffer b /\ batch_size b' = batch_size b
  /\ closed (conn b') = closed (conn b)
  /\ committed (conn b') = committed (conn b).
Proof.
  unfold flush_batch.
  destruct (process_all E (buffer b) (live (conn b))) as [[|e'] w'];
    intro H; inversion H; subst. repeat split.
Qed.

(** While the loop runs without an exception the buffer stays below the
    batch size and nothing closes the connection. *)
Lemma run_loop_quiet (E : env) (events : list event) (b : worker) :
  (List.length (buffer b) < batch_size b)%nat ->
  (forall e, fst (run_loop E events b) <> Failed e) ->
  let b' := snd (run_loop E events b) in
  (List.length (buffer b') < batch_size b')%nat
  /\ batch_size b' = batch_size b.
Proof.
  revert b. induction events as [|ev events IH]; intros b Hlen Hok;
    simpl in *; auto.
  destruct ev as [txid| | |tag]; auto.
  - destruct (Nat.leb (batch_size b) (List.length (buffer b ++ [txid])))
      eqn:Hfull.
    + destruct (flush_batch E (with_buffer b (buffer b ++ [txid])))
        as [[|e] b2] eqn:Hflush.
      * apply flush_batch_done in Hflush as (Hb & _ & Hsz & _).
        simpl in *.
        destruct (IH b2) as (A & B); auto.
        -- rewrite Hb, Hsz. simpl. lia.
        -- split; auto; congruence.
      * now destruct (Hok e).
    + apply Nat.leb_gt in Hfull.
      destruct (IH (with_buffer b (buffer b ++ [txid]))) as (A & B); auto.
  - destruct (IH (with_conn b (purge_old E (conn b)))) as (A & B); auto.
Qed.

(** X20: unless the worker dies, it leaves no row uncommitted: started on
    a connection without uncommitted rows, whenever it waits for the next
    event or has terminated, the committed rows are the rows it sees. *)
Theorem surviving_worker_is_settled (E : env) (events : list event)
    (b : worker) :
  settled (conn b) ->
  (forall e, fst (run E events b) <> Died e) ->
  settled (conn (snd (run E events b))).
Proof.
  intros Hs Hok. unfold run in *.
  assert (Hq : forall events b,
            settled (conn b) ->
            (forall e, fst (run_loop E events b) <> Failed e) ->
            settled (conn (snd (run_loop E events b)))).
  { clear. induction events as [|ev events IH]; intros b Hs Hok; simpl in *;
      auto.
    destruct ev as [txid| | |tag]; auto.
    - destruct (Nat.leb _ _); [|now apply IH].
      destruct (flush_batch E _) as [[|e] b2] eqn:Hflush.
      + apply flush_batch_done in Hflush as (_ & Hst & _). now apply IH.
      + now destruct (Hok e).
    - apply IH; auto. reflexivity. }
  specialize (Hq events b Hs).
  destruct (run_loop E events b) as [[|e|] b1]; simpl in *.
  - unfold finally_clause in *. destruct (buffer b1).
    + reflexivity.
    + destruct (flush_batch E b1) as [[|e'] b2]; simpl in *; [reflexivity|].
      now destruct (Hok e').
  - exfalso. unfold finally_clause in Hok. destruct (buffer b1).
    + now apply (Hok e).
    + destruct (flush_batch E b1) as [[|e'] b2]; simpl in *;
        [now apply (Hok e) | now apply (Hok e')].
  - apply Hq. discriminate.
Qed.

Lemma surviving_worker_is_settled_witness :
  settled (conn (snd (run Sample.E [Added "orig"; Purge; Added "new"]
                        (new_worker 1)))).
Proof.
  apply surviving_worker_is_settled.
  - reflexivity.
  - intro e. vm_compute. discriminate.
Defined.

(** X21: a worker that waits for the next event holds fewer txids than
    its batch size: the buffer is flushed at the latest when it reaches it. *)
Theorem waiting_worker_buffer_is_below_batch_size (E : env)
    (events : list event) (b : worker) :
  (List.length (buffer b) < batch_size b)%nat ->
  fst (run E events b) = Waiting ->
  (List.length (buffer (snd (run E events b)))
   < batch_size (snd (run E events b)))%nat
  /\ batch_size (snd (run E events b)) = batch_size b.
Proof.
  intros Hlen Hw. unfold run in *.
  pose proof (run_loop_quiet E events b Hlen) as Hq.
  destruct (run_loop E events b) as [[|e|] b1]; simpl in *.
  - destruct (finally_clause E b1) as [[|e'] b2]; discriminate.
  - destruct (finally_clause E b1) as [[|e'] b2]; discriminate.
  - apply Hq. discriminate.
Qed.

Lemma waiting_worker_buffer_is_below_batch_size_witness :
  let r := run Sample.E [Added "orig"; Added "new"; Added "good"]
             (new_worker 2) in
  (List.length (buffer (snd r)) < batch_size (snd r))%nat
  /\ batch_size (snd r) = 2%nat.
Proof.
  apply (waiting_worker_buffer_is_below_batch_size Sample.E
           [Added "orig"; Added "new"; Added "good"] (new_worker 2)).
  - simpl. lia.
  - vm_compute. reflexivity.
Defined.

Lemma run_loop_keeps_open (E : env) (events : list event) (b : worker) :
  closed (conn (snd (run_loop E events b))) = closed (conn b).
Proof.
  revert b. induction events as [|ev events IH]; intro b; simpl; auto.
  destruct ev as [txid| | |tag]; auto.
  - destruct (Nat.leb _ _); [|now rewrite IH].
    destruct (flush_batch E _) as [[|e] b2] eqn:Hflush.
    + apply flush_batch_done in Hflush as (_ & _ & _ & Hcl & _).
      now rewrite IH.
    + apply flush_batch_raised in Hflush as (_ & _ & Hcl & _). exact Hcl.
  - now rewrite IH.
Qed.

(** X22: the connection is closed by the [finally] clause alone, after
    its flush and commit went through: a worker that terminated has closed
    it, and whenever it is closed the buffer is empty, nothing is
    uncommitted and the thread is no longer waiting. *)
Theorem closed_connection_is_settled (E : env) (events : list event)
    (b : worker) :
  closed (conn b) = false ->
  let r := run E events b in
  (fst r = Terminated -> closed (conn (snd r)) = true)
  /\ (closed (conn (snd r)) = true ->
      buffer (snd r) = [] /\ settled (conn (snd r)) /\ fst r <> Waiting).
Proof.
  intro Hopen. cbn zeta. unfold run.
  pose proof (run_loop_keeps_open E events b) as Hkeep.
  rewrite Hopen in Hkeep.
  assert (Hfin : forall b1,
            closed (conn b1) = false ->
            match finally_clause E b1 with
            | (Done, b2) =>
                closed (conn b2) = true /\ buffer b2 = []
                /\ settled (conn b2)
            | (Raised _, b2) => closed (conn b2) = false
            end).
  { intros b1 Hb1. unfold finally_clause.
    destruct (buffer b1) eqn:Hbuf.
    - simpl. repeat split. exact Hbuf.
    - destruct (flush_batch E b1) as [[|e] b2] eqn:Hflush.
      + apply flush_batch_done in Hflush as (Hb & _). simpl.
        repeat split. exact Hb.
      + apply flush_batch_raised in Hflush as (_ & _ & Hcl & _).
        simpl. congruence. }
  destruct (run_loop E events b) as [[|e|] b1]; simpl in *.
  - specialize (Hfin b1 Hkeep).
    destruct (finally_clause E b1) as [[|e'] b2]; simpl.
    + destruct Hfin as (A & B & C). split; auto.
      intros _. repeat split; auto. discriminate.
    + split; [discriminate | congruence].
  - specialize (Hfin b1 Hkeep).
    destruct (finally_clause E b1) as [[|e'] b2]; simpl.
    + destruct Hfin as (A & B & C). split; auto.
      intros _. repeat split; auto. discriminate.
    + split; [discriminate | congruence].
  - split; [discriminate | congruence].
Qed.

Lemma closed_connection_is_settled_witness :
  let r := run Sample.E [Added "good"; Stop] (new_worker 200) in
  closed (conn (snd r)) = true
  /\ buffer (snd r) = [] /\ settled (conn (snd r)).
Proof.
  cbn zeta.
  destruct (closed_connection_is_settled Sample.E [Added "good"; Stop]
              (new_worker 200) eq_refl) as [Hterm Hclosed].
  assert (Hc : closed (conn (snd (run Sample.E [Added "good"; Stop]
                                    (new_worker 200)))) = true)
    by (apply Hterm; vm_compute; reflexivity).
  destruct (Hclosed Hc) as (A & B & _). auto.
Defined.

(** ** Batching *)

Lemma process_all_app (E : env) (a c : list string) (w : world) :
  process_all E (a ++ c) w
  = match process_all E a w with
    | (Done, w1) => process_all E c w1
    | (Raised e, w1) => (Raised e, w1)
    end.
Proof.
  revert w. induction a as [|t a IH]; intro w; simpl; [reflexivity|].
  destruct (process_added_nocommit E t w) as [[|e] w1]; auto.
Qed.

Lemma run_loop_batches (E : env) (txids : list string) (b : worker) :
  fst (process_all E (buffer b ++ txids) (live (conn b))) = Done ->
  exists b1,
    run_loop E (map Added txids) b = (Starved, b1)
    /\ process_all E (buffer b1) (live (conn b1))
       = process_all E (buffer b ++ txids) (live (conn b)).
Proof.
  revert b. induction txids as [|t txids IH]; intros b Hdone; simpl.
  - exists b. rewrite app_nil_r. auto.
  - assert (Hsplit : buffer b ++ t :: txids = (buffer b ++ [t]) ++ txids)
      by (now rewrite <- app_assoc).
    rewrite Hsplit in *.
    destruct (Nat.leb _ _).
    + unfold flush_batch. simpl.
      rewrite (process_all_app E (buffer b ++ [t]) txids) in Hdone |- *.
      destruct (process_all E (buffer b ++ [t]) (live (conn b)))
        as [[|e] w1]; [|discriminate].
      apply (IH (with_buffer
                   (with_conn (with_buffer b (buffer b ++ [t]))
                      (commit (on_live (conn b) w1))) [])).
      exact Hdone.
    + apply (IH (with_buffer b (buffer b ++ [t]))). exact Hdone.
Qed.

(** X23: batching does not change the result: for any batch size, when
    processing the txids one after the other raises nothing, the worker that
    receives them as [added] events followed by a stop terminates having
    committed exactly the rows that processing them in one sequence
    yields. *)
Theorem batch_size_does_not_change_the_result (E : env)
    (txids : list string) (rest : list event) (b : worker) :
  buffer b = [] ->
  fst (process_all E txids (live (conn b))) = Done ->
  let r := run E (map Added txids ++ Stop :: rest) b in
  fst r = Terminated
  /\ live (conn (snd r)) = snd (process_all E txids (live (conn b)))
  /\ committed (conn (snd r)) = db (snd (process_all E txids (live (conn b)))).
Proof.
  intros Hbuf Hdone. cbn zeta.
  destruct (run_loop_batches E txids b) as (b1 & Hrun & Hsame);
    [now rewrite Hbuf|].
  rewrite Hbuf in Hsame. simpl in Hsame.
  unfold run. rewrite (run_loop_app E _ (Stop :: rest) b b1 Hrun).
  simpl run_loop. cbv iota. unfold finally_clause, flush_batch.
  destruct (buffer b1) as [|t l] eqn:Hb1.
  - simpl in Hsame. rewrite <- Hsame. simpl. auto.
  - rewrite Hsame.
    destruct (process_all E txids (live (conn b))) as [[|e] w1];
      [|discriminate].
    simpl. auto.
Qed.

Lemma batch_size_does_not_change_the_result_witness :
  live (conn (snd (run Sample.E [Added "orig"; Added "new"; Added "good"; Stop]
                     (new_worker 2))))
  = live (conn (snd (run Sample.E
                       [Added "orig"; Added "new"; Added "good"; Stop]
                       (new_worker 200)))).
Proof.
  destruct (batch_size_does_not_change_the_result Sample.E
              ["orig"; "new"; "good"] [] (new_worker 2) eq_refl)
    as (_ & H2 & _); [vm_compute; reflexivity|].
  destruct (batch_size_does_not_change_the_result Sample.E
              ["orig"; "new"; "good"] [] (new_worker 200) eq_refl)
    as (_ & H200 & _); [vm_compute; reflexivity|].
  simpl map in H2, H200. simpl app in H2, H200.
  rewrite H2, H200. reflexivity.
Defined.

(** ** What can kill the Batch Worker *)

Lemma process_all_never_raises (E : env) :
  (forall txid w, fst (process_added_nocommit E txid w) = Done) ->
  forall txids w, fst (process_all E txids w) = Done.
Proof.
  intros Hok txids. induction txids as [|t txids IH]; intro w; simpl; auto.
  specialize (Hok t w).
  destruct (process_added_nocommit E t w) as [[|e] w1]; simpl in *;
    [apply IH | discriminate].
Qed.

Lemma run_loop_fails_only_in_ingestion (E : env) (events : list event)
    (b : worker) :
  (forall txid w, fst (process_added_nocommit E txid w) = Done) ->
  forall e, fst (run_loop E events b) <> Failed e.
Proof.
  intro Hok. revert b. induction events as [|ev events IH]; intros b e;
    simpl; [discriminate|].
  destruct ev as [txid| | |tag]; auto; [|discriminate].
  destruct (Nat.leb _ _); [|now apply IH].
  unfold flush_batch. simpl.
  pose proof (process_all_never_raises E Hok (buffer b ++ [txid])
                (live (conn b))) as Hd.
  destruct (process_all E (buffer b ++ [txid]) (live (conn b)))
    as [[|e'] w1]; simpl in *; [|discriminate].
  now apply IH.
Qed.

(** X24: nothing but the ingestion of a transaction can kill the worker:
    with an API for which [process_added_nocommit] never raises (as one
    whose every request fails), no sequence of events, purges and unknown
    events included, makes the worker die. *)
Theorem worker_dies_only_of_ingestion (E : env) (events : list event)
    (b : worker) :
  (forall txid w, fst (process_added_nocommit E txid w) = Done) ->
  forall e, fst (run E events b) <> Died e.
Proof.
  intros Hok e. unfold run.
  pose proof (run_loop_fails_only_in_ingestion E events b Hok) as Hloop.
  destruct (run_loop E events b) as [[|e1|] b1]; simpl in *.
  - unfold finally_clause. destruct (buffer b1) eqn:Hb; [discriminate|].
    unfold flush_batch. rewrite Hb.
    pose proof (process_all_never_raises E Hok (s :: l) (live (conn b1)))
      as Hd.
    destruct (process_all E (s :: l) (live (conn b1))) as [[|e'] w1];
      simpl in *; discriminate.
  - now destruct (Hloop e1).
  - discriminate.
Qed.

Lemma worker_dies_only_of_ingestion_witness :
  let r := run Fixture.offline
             [Added "orig"; Purge; Added "new"; Unknown "noop"; Added "bad";
              Stop; Added "good"]
             (new_worker 2) in
  fst r <> Died TypeError /\ fst r <> Died (KeyError "txid")
  /\ fst r <> Died OverflowError.
Proof.
  cbn zeta. repeat split;
    apply worker_dies_only_of_ingestion; intros txid w; reflexivity.
Defined.

Lemma purge_leaves_mappings_without_events_witness :
  replacements (purge_rows "2024-01-01T00:00:00" Fixture.recorded) = []
  /\ change_inputs (purge_rows "2024-01-01T00:00:00" Fixture.recorded)
     = change_inputs Fixture.recorded
  /\ ~ mappings_have_events
         (purge_rows "2024-01-01T00:00:00" Fixture.recorded).
Proof.
  apply purge_leaves_mappings_without_events.
  - vm_compute. discriminate.
  - intros r Hr. vm_compute in Hr. destruct Hr as [<-|[]]. reflexivity.
Defined.

(** ** More on the purge *)

Lemma filter_filter {A : Type} (f : A -> bool) (l : list A) :
  filter f (filter f l) = filter f l.
Proof.
  induction l as [|a l IH]; simpl; [reflexivity|].
  destruct (f a) eqn:Hf; simpl; [rewrite Hf; now f_equal | exact IH].
Qed.

(** X25: purging twice with the same cutoff is purging once. *)
Theorem purge_rows_is_idempotent (ts : string) (s : store) :
  purge_rows ts (purge_rows ts s) = purge_rows ts s.
Proof.
  unfold purge_rows. simpl. rewrite !filter_filter. reflexivity.
Qed.

(** X26: the purge adds no row, and of the input and output rows it keeps
    exactly those whose transaction row survives: a row goes with its
    transaction however recent the row itself may be, and a row without any
    transaction row goes at the first purge. *)
Theorem purge_keeps_rows_of_surviving_transactions (ts : string) (s : store) :
  grows (purge_rows ts s) s
  /\ (forall r, In r (tx_inputs (purge_rows ts s)) <->
        In r (tx_inputs s)
        /\ exists t, In t (tx s) /\ Table.tx_txid t = Table.in_txid r
                     /\ ~ older_than ts (Table.fetched_at t))
  /\ (forall r, In r (tx_outputs (purge_rows ts s)) <->
        In r (tx_outputs s)
        /\ exists t, In t (tx s) /\ Table.tx_txid t = Table.out_txid r
                     /\ ~ older_than ts (Table.fetched_at t)).
Proof.
  assert (Hsurv : forall txid,
            has_tx (filter (fun r => negb (String.ltb (Table.fetched_at r) ts))
                      (tx s)) txid = true
            <-> exists t, In t (tx s) /\ Table.tx_txid t = txid
                          /\ ~ older_than ts (Table.fetched_at t)).
  { intro txid. rewrite has_tx_true. split.
    - intros (t & Hin & Heq).
      apply (not_older_filter Table.fetched_at) in Hin as [Hin Hn]. eauto.
    - intros (t & Hin & Heq & Hn). exists t. split; auto.
      apply (not_older_filter Table.fetched_at). auto. }
  split; [|split].
  - repeat split; simpl; try apply incl_refl; intros r Hr;
      apply filter_In in Hr; tauto.
  - intro r. simpl. rewrite filter_In, Hsurv. tauto.
  - intro r. simpl. rewrite filter_In, Hsurv. tauto.
Qed.

(** X27: on a store where no stamp is older than the cutoff and every
    input and output row has its transaction row, the purge changes
    nothing. *)
Theorem purge_of_a_recent_store_changes_nothing (ts : string) (s : store) :
  (forall r, In r (tx s) -> ~ older_than ts (Table.fetched_at r)) ->
  (forall r, In r (rbf_txs s) -> ~ older_than ts (Table.added_at r)) ->
  (forall r, In r (replacements s) -> ~ older_than ts (Table.detected_at r)) ->
  (forall r, In r (tx_inputs s) -> has_tx (tx s) (Table.in_txid r) = true) ->
  (forall r, In r (tx_outputs s) -> has_tx (tx s) (Table.out_txid r) = true) ->
  purge_rows ts s = s.
Proof.
  intros Htx Hrbf Hrep Hin Hout.
  assert (Hall : forall (A : Type) (f : A -> bool) (l : list A),
            (forall x, In x l -> f x = true) -> filter f l = l).
  { intros A f l H. induction l as [|a l IH]; simpl; [reflexivity|].
    rewrite (H a (or_introl eq_refl)). f_equal. apply IH.
    intros x Hx. apply H. now right. }
  assert (Hfresh : forall (R : Type) (stamp : R -> string) (l : list R),
            (forall r, In r l -> ~ older_than ts (stamp r)) ->
            filter (fun r => negb (String.ltb (stamp r) ts)) l = l).
  { intros R stamp l H. apply Hall. intros x Hx.
    specialize (H x Hx). unfold older_than in H.
    now destruct (String.ltb (stamp x) ts). }
  unfold purge_rows.
  rewrite (Hfresh _ Table.fetched_at _ Htx), (Hfresh _ Table.added_at _ Hrbf),
    (Hfresh _ Table.detected_at _ Hrep), (Hall _ _ _ Hin), (Hall _ _ _ Hout).
  now destruct s.
Qed.

Lemma purge_of_a_recent_store_changes_nothing_witness :
  purge_rows "2023-12-25T00:00:00" Fixture.consistent = Fixture.consistent.
Proof.
  apply purge_of_a_recent_store_changes_nothing;
    intros r Hr; simpl in Hr;
    repeat (destruct Hr as [<-|Hr];
            [try reflexivity; vm_compute; discriminate|]);
    destruct Hr.
Defined.

(** ** The request counters *)

(** X28: every call of [fetch_tx] counts one request and exactly one
    outcome, also when it raises, so the requests counted stay the sum of
    the successes, the not-found answers, the HTTP errors and the network
    errors.  A success is counted exactly when a response comes back whose
    status is no 4xx or 5xx, before its body is parsed: the call returns a
    transaction only after it counted a success, the one exception it lets
    out is the JSONDecodeError of a counted success whose body is not
    JSON, and a counted success whose body is [null] returns [None].  The
    processed counter is never touched. *)
Theorem fetch_tx_counts_one_outcome (r : Http.reply) (c : Http.counters) :
  let res := fst (Http.fetch_tx r c) in
  let c' := snd (Http.fetch_tx r c) in
  Http.total_requests c' = Http.total_requests c + 1
  /\ (Http.balanced c -> Http.balanced c')
  /\ (Http.success c' = Http.success c + 1 <->
      exists code content,
        r = Http.Response code content
        /\ Http.raises_for_status code = false)
  /\ (Http.success c' = Http.success c + 1
      \/ (Http.success c' = Http.success c /\ res = Http.Returns None))
  /\ (forall txj, res = Http.Returns (Some txj) <->
        exists code, r = Http.Response code (Http.Object txj)
                     /\ Http.raises_for_status code = false)
  /\ (forall e, res = Http.Raises e <->
        e = JSONDecodeError
        /\ exists code, r = Http.Response code Http.Malformed
                        /\ Http.raises_for_status code = false)
  /\ Http.processed c' = Http.processed c.
Proof.
  unfold Http.fetch_tx, Http.balanced.
  destruct r as [code content|]; simpl.
  - destruct (Http.raises_for_status code) eqn:Hs.
    + assert (Hno : forall code' content',
                Http.Response code content = Http.Response code' content' ->
                Http.raises_for_status code' = false -> False)
        by (intros code' content' Heq Hf; inversion Heq; congruence).
      destruct (Z.eqb code 404); simpl;
        (split; [lia|]); (split; [lia|]);
        (split; [split; [lia | intros (c1 & c2 & H1 & H2);
                                 destruct (Hno c1 c2 H1 H2)]|]);
        (split; [right; split; [lia | reflexivity]|]);
        (split; [intro txj; split;
                 [discriminate | intros (c1 & H1 & H2);
                                 destruct (Hno c1 _ H1 H2)]|]);
        (split; [|reflexivity]);
        intro e; (split; [discriminate|]);
        intros (_ & c1 & H1 & H2); destruct (Hno c1 _ H1 H2).
    + split; [destruct content; simpl; lia|].
      split; [destruct content; simpl; lia|].
      split; [split; [eauto | destruct content; simpl; lia]|].
      split; [left; destruct content; simpl; lia|].
      split; [|split; [|destruct content; reflexivity]].
      * intro txj. split.
        -- destruct content; simpl; intro H; inversion H; subst; eauto.
        -- intros (c1 & H1 & _). inversion H1. reflexivity.
      * intro e. split.
        -- destruct content; simpl; intro H; inversion H; subst; eauto.
        -- intros (-> & c1 & H1 & _). inversion H1. reflexivity.
  - split; [lia|]. split; [lia|].
    split; [split; [lia | intros (c1 & c2 & H1 & _); discriminate]|].
    split; [right; split; [lia | reflexivity]|].
    split; [intro txj; split;
            [discriminate | intros (c1 & H1 & _); discriminate]|].
    split; [|reflexivity].
    intro e. split; [discriminate | intros (_ & c1 & H1 & _); discriminate].
Qed.

Lemma fetch_tx_counts_one_outcome_witness :
  let c :=
    snd (Http.fetch_tx (Http.Response 404 (Http.Object Sample.good_tx))
           Http.zero) in
  let r' := Http.fetch_tx (Http.Response 200 Http.Malformed) c in
  Http.balanced (snd r') /\ Http.total_requests (snd r') = 2
  /\ Http.success (snd r') = 1 /\ fst r' = Http.Raises JSONDecodeError.
Proof.
  cbn zeta.
  destruct (fetch_tx_counts_one_outcome
              (Http.Response 404 (Http.Object Sample.good_tx)) Http.zero)
    as (T1 & B1 & _).
  destruct (fetch_tx_counts_one_outcome (Http.Response 200 Http.Malformed)
              (snd (Http.fetch_tx
                      (Http.Response 404 (Http.Object Sample.good_tx))
                      Http.zero))) as (T2 & B2 & S2 & _ & _ & R2 & _).
  split; [apply B2, B1; reflexivity|].
  split; [rewrite T2, T1; reflexivity|].
  split.
  - replace 1 with
      (Http.success
         (snd (Http.fetch_tx
                 (Http.Response 404 (Http.Object Sample.good_tx))
                 Http.zero)) + 1) by reflexivity.
    apply S2. exists 200, Http.Malformed. split; reflexivity.
  - apply R2. split; [reflexivity|]. exists 200. split; reflexivity.
Defined.

(** The six ways a request can come back, counted from zero. *)
Example fetch_tx_outcomes :
  map (fun r => fst (Http.fetch_tx r Http.zero))
    [Http.Response 200 (Http.Object Sample.good_tx);
     Http.Response 200 Http.Null;
     Http.Response 200 Http.Malformed;
     Http.Response 404 Http.Malformed;
     Http.Response 403 (Http.Object Sample.good_tx);
     Http.Failure]
  = [Http.Returns (Some Sample.good_tx); Http.Returns None;
     Http.Raises JSONDecodeError; Http.Returns None; Http.Returns None;
     Http.Returns None]
  /\ map (fun r => Http.success (snd (Http.fetch_tx r Http.zero)))
       [Http.Response 200 (Http.Object Sample.good_tx);
        Http.Response 200 Http.Null;
        Http.Response 200 Http.Malformed;
        Http.Response 404 Http.Malformed;
        Http.Response 403 (Http.Object Sample.good_tx);
        Http.Failure]
     = [1; 1; 1; 0; 0; 0].
Proof. split; reflexivity. Qed.

(** ** The scenarios once more *)

Lemma scenario_A_is_recorded :
  snd (record_replacement Sample.E "orig" "new" Fixture.scenario_A_world)
  <> Fixture.scenario_A_world.
Proof.
  intro H. apply (f_equal ticks) in H. vm_compute in H. discriminate.
Qed.

Lemma recorded_only_on_shrink_witness :
  exists i addr o n, shrink_at Sample.scenario_A "orig" "new" i addr o n.
Proof.
  apply (recorded_only_on_shrink Sample.E "orig" "new"
           Fixture.scenario_A_world).
  exact scenario_A_is_recorded.
Defined.

Lemma detection_is_one_way_witness :
  record_replacement Sample.E "new" "orig" Fixture.scenario_A_world
  = (Done, Fixture.scenario_A_world).
Proof.
  apply detection_is_one_way. exact scenario_A_is_recorded.
Defined.

Lemma redetection_changes_nothing_witness :
  let w1 := snd (record_replacement Sample.E "orig" "new"
                   Fixture.scenario_A_world) in
  db (snd (record_replacement Sample.E "orig" "new" w1)) = db w1.
Proof.
  apply redetection_changes_nothing;
    intros r Hr _; simpl in Hr;
    repeat (destruct Hr as [<-|Hr]; [discriminate|]);
    destruct Hr.
Defined.

(** The exception of the detector does occur: Scenario A with the old
    value of B missing. *)
Example null_value_raises_type_error :
  record_replacement Sample.E "orig" "new"
    {| db := Fixture.null_value; ticks := 0 |}
  = (Raised TypeError, {| db := Fixture.null_value; ticks := 0 |}).
Proof. reflexivity. Qed.

(** ** Output rows of a txid processed once *)

Lemma output_rows_bounds (txid : string) (vouts : list Json.Vout.t) (idx : Z)
    (r : Table.tx_output) :
  In r (output_rows txid idx vouts) ->
  Table.out_txid r = txid /\ idx <= Table.vout_index r.
Proof.
  revert idx. induction vouts as [|v vs IH]; intros idx H.
  - destruct H.
  - rewrite output_rows_cons in H. destruct H as [<-|H].
    + simpl. split; [reflexivity | lia].
    + apply IH in H as [H1 H2]. split; [exact H1 | lia].
Qed.

Lemma output_rows_NoDup (txid : string) (vouts : list Json.Vout.t) (idx : Z) :
  NoDup (map output_key (output_rows txid idx vouts)).
Proof.
  revert idx. induction vouts as [|v vs IH]; intro idx.
  - constructor.
  - rewrite output_rows_cons. simpl. constructor; [|apply IH].
    intro H. apply in_map_iff in H as (r & Hk & Hr).
    apply output_rows_bounds in Hr as [_ Hr].
    unfold output_key in Hk. inversion Hk. lia.
Qed.

(** X29: a txid processed for the first time keeps the output pairs
    unique: if no two output rows share (txid, vout_index), no output row of
    the txid is stored yet and its inputs carry their keys, then after
    processing it still no two output rows share the pair. *)
Theorem first_processing_keeps_outputs_unique (E : env) (txid : string)
    (txj : Json.Tx.t) (w : world) :
  fetch_tx E txid = Some txj ->
  inputs_well_formed txj ->
  unique_outputs (db w) ->
  (forall r, In r (tx_outputs (db w)) -> Table.out_txid r <> txid) ->
  unique_outputs (db (snd (process_added_nocommit E txid w))).
Proof.
  intros Hf Hwf Hu Hnew. unfold unique_outputs.
  match goal with |- NoDup (map output_key ?t) =>
    assert (Ht : t = tx_outputs (db w)
                     ++ output_rows txid 0 (get_or (Json.Tx.vout txj) []))
  end.
  { unfold process_added_nocommit. rewrite Hf. cbn zeta.
    match goal with |- context [insert_inputs txid ?v ?t false] =>
      pose proof (insert_inputs_well_formed txid v t false Hwf) as Hok;
      destruct (insert_inputs txid v t false) as [[o t'] f']
    end.
    destruct Hok as (-> & _).
    destruct f'; simpl; [|apply insert_outputs_spec].
    match goal with |- context [detect_replacements E txid ?v ?w0] =>
      destruct (detect_replacements_same_ingested E txid v w0)
        as (_ & _ & H & _)
    end.
    rewrite H. simpl. apply insert_outputs_spec. }
  rewrite Ht, map_app. apply NoDup_app; auto.
  - apply output_rows_NoDup.
  - intros k Hold Hnewk.
    apply in_map_iff in Hold as (r & Hk & Hr).
    apply in_map_iff in Hnewk as (r' & Hk' & Hr').
    apply output_rows_bounds in Hr' as [Ht' _].
    apply (Hnew r Hr). unfold output_key in *.
    rewrite <- Hk' in Hk. inversion Hk. congruence.
Qed.

Lemma first_processing_keeps_outputs_unique_witness :
  let w1 := snd (process_added_nocommit Sample.E "orig" Sample.fresh) in
  unique_outputs (db (snd (process_added_nocommit Sample.E "new" w1))).
Proof.
  cbn zeta.
  apply (first_processing_keeps_outputs_unique Sample.E "new" Sample.new_tx
           _ eq_refl).
  - intros vin [<-|[<-|[]]]; split; discriminate.
  - apply (first_processing_keeps_outputs_unique Sample.E "orig"
             Sample.orig_tx Sample.fresh eq_refl).
    + intros vin [<-|[<-|[]]]; split; discriminate.
    + constructor.
    + intros r [].
  - intros r Hr. vm_compute in Hr.
    destruct Hr as [<-|[<-|[]]]; discriminate.
Defined.

(** ** From the first snapshot to the store *)

Lemma poll_loop_emits_added (answers : list snapshot) (last : list string) :
  exists txids, fst (poll_loop answers last) = map Added txids.
Proof.
  revert last. induction answers as [|[l|] answers IH]; intro last;
    rewrite poll_loop_events.
  - now exists [].
  - destruct (IH l) as (txids & ->).
    eexists. rewrite <- map_app. reflexivity.
  - apply IH.
Qed.

Lemma added_txids_map (txids : list string) :
  added_txids (map Added txids) = txids.
Proof.
  induction txids as [|t txids IH]; simpl; [reflexivity|]. now rewrite IH.
Qed.

(** X30: the pipeline of [main] delivers the first snapshot: when the
    first poll succeeds, the queue holds what the Poller emitted followed by
    the stop of the shutdown, and processing the emitted txids one after
    another on the empty store raises nothing, the worker terminates,
    whatever its batch size, and every txid of the first snapshot that the
    API returns has its row in the committed [tx] table. *)
Theorem first_snapshot_reaches_the_store (E : env) (initial : list string)
    (rest : list snapshot) (size : nat) :
  let events := snd (fst (poller_run (Some initial :: rest))) in
  fst (process_all E (added_txids events) {| db := empty_store; ticks := 0 |})
  = Done ->
  let r := run E (events ++ [Stop]) (new_worker size) in
  fst r = Terminated
  /\ forall t, In t initial -> fetch_tx E t <> None ->
       has_tx (tx (committed (conn (snd r)))) t = true.
Proof.
  cbn zeta. simpl poller_run.
  destruct (poll_loop_emits_added rest initial) as (later & Hlater).
  destruct (poll_loop rest initial) as [events last]. simpl in *. subst events.
  rewrite <- map_app. rewrite added_txids_map.
  set (txids := initial ++ later).
  set (w0 := live (conn (new_worker size))).
  change {| db := empty_store; ticks := 0 |} with w0.
  intro Hdone.
  destruct (run_loop_batches E txids (new_worker size)) as (b1 & Hrun & Hsame);
    [exact Hdone|].
  change (process_all E (buffer b1) (live (conn b1)) = process_all E txids w0)
    in Hsame.
  pose proof (process_all_stores_tx E txids w0 Hdone) as Hst.
  unfold run. rewrite (run_loop_app E _ [Stop] _ b1 Hrun).
  simpl run_loop. cbv iota. unfold finally_clause, flush_batch.
  destruct (buffer b1) as [|t l] eqn:Hb1.
  - cbn [process_all] in Hsame. rewrite <- Hsame in Hst.
    simpl. split; [reflexivity|].
    intros t Hin Hf. apply Hst; auto. apply in_or_app. now left.
  - rewrite Hsame.
    destruct (process_all E txids w0) as [[|e] w1]; [|discriminate].
    simpl. split; [reflexivity|].
    intros t' Hin Hf. apply Hst; auto. apply in_or_app. now left.
Qed.

Lemma first_snapshot_reaches_the_store_witness :
  let events :=
    snd (fst (poller_run [Some ["orig"; "gone"]; None; Some ["orig"; "new"]])) in
  let r := run Fixture.E (events ++ [Stop]) (new_worker 2) in
  added_txids events = ["orig"; "gone"; "new"]
  /\ fst r = Terminated
  /\ has_tx (tx (committed (conn (snd r)))) "orig" = true.
Proof.
  cbn zeta. split; [reflexivity|].
  destruct (first_snapshot_reaches_the_store Fixture.E ["orig"; "gone"]
              [None; Some ["orig"; "new"]] 2)
    as [Ht Hst].
  - vm_compute. reflexivity.
  - split; [exact Ht|].
    apply Hst; [now left | discriminate].
Defined.
